(** * kikaku-os maintenance scripts: removal of [dark:] Tailwind classes

    A shallow embedding of the text transformation [remove_dark_classes]
    of the three scripts

      - scripts/remove-dark-classes.py          (module [Classes])
      - scripts/remove-dark-admin-pages.py      (module [AdminPages])
      - scripts/remove-dark-from-components.py  (module [Components])

    together with the Python primitives they call ([str.split],
    [str.strip], [str.startswith], [str.join], [re.sub]) and the
    properties of the transformation. *)

From Stdlib Require Import String Ascii List NArith Bool Arith Lia.
Import ListNotations.

(** ** Python strings *)

Module Py.

(** A Python [str] is a sequence of Unicode code points. *)
Definition char := N.
Definition str := list char.

(** ASCII literals of the scripts, as code points. *)
Definition lit (s : string) : str :=
  map N_of_ascii (list_ascii_of_string s).

Definition LF : char := 10%N.       (* '\n' *)
Definition SP : char := 32%N.       (* ' '  *)
Definition DQ : char := 34%N.       (* the double quote *)
Definition SQ : char := 39%N.       (* '\'' *)
Definition COMMA : char := 44%N.    (* ','  *)
Definition RBRACK : char := 93%N.   (* ']'  *)

(** [str.isspace] on one code point; the same table backs [\s] of
    [re] on [str] patterns: U+0009..U+000D, U+001C..U+0020, U+0085,
    U+00A0, U+1680, U+2000..U+200A, U+2028, U+2029, U+202F, U+205F,
    U+3000. *)
Definition isspace (c : char) : bool :=
  ((9 <=? c) && (c <=? 13) || (28 <=? c) && (c <=? 32)
   || (c =? 133) || (c =? 160) || (c =? 5760)
   || (8192 <=? c) && (c <=? 8202)
   || (c =? 8232) || (c =? 8233) || (c =? 8239) || (c =? 8287)
   || (c =? 12288))%N.

(** [s.split(sep)] for a separator of one character: never empty. *)
Fixpoint split (sep : char) (s : str) : list str :=
  match s with
  | [] => [[]]
  | c :: s' =>
      if (c =? sep)%N then [] :: split sep s'
      else match split sep s' with
           | l :: ls => (c :: l) :: ls
           | [] => [[c]]
           end
  end.

(** [sep.join(parts)]. *)
Fixpoint join (sep : str) (parts : list str) : str :=
  match parts with
  | [] => []
  | p :: rest =>
      match rest with
      | [] => p
      | _ :: _ => p ++ sep ++ join sep rest
      end
  end.

(** Drop the longest prefix of characters in the set [f]. *)
Fixpoint dropwhile (f : char -> bool) (s : str) : str :=
  match s with
  | [] => []
  | c :: s' => if f c then dropwhile f s' else s
  end.

(** [s.lstrip()], [s.rstrip()], [s.strip()] with no argument. *)
Definition lstrip (s : str) : str := dropwhile isspace s.

Definition rstrip (s : str) : str := rev (lstrip (rev s)).

Definition strip (s : str) : str := rstrip (lstrip s).

(** [s.startswith(prefix)]. *)
Fixpoint startswith (s prefix : str) {struct prefix} : bool :=
  match prefix with
  | [] => true
  | p :: prefix' =>
      match s with
      | [] => false
      | c :: s' => (c =? p)%N && startswith s' prefix'
      end
  end.

End Py.

Import Py.

(** ** The fragment of [re] the scripts use

    Every pattern of the three scripts is a sequence of one-character
    items (a literal, [\s], or a negated set), each taken once or under
    a greedy [*] or [+]. *)

Module Re.

Inductive quant := Once | Star | Plus.

Record item := Item { cset : char -> bool; rep : quant }.

Definition regex := list item.

(** Greedy repetition of a one-character set with backtracking: take
    the character if it is in the set and try the longer match first;
    fall back to the continuation [k] at the current position. *)
Fixpoint greedy (cs : char -> bool) (k : str -> option str) (s : str)
  : option str :=
  match s with
  | [] => k s
  | c :: s' =>
      if cs c then
        match greedy cs k s' with
        | Some rest => Some rest
        | None => k s
        end
      else k s
  end.

(** [re_match p s]: match [p] at the start of [s]; the result is what
    is left of [s] behind the match. *)
Fixpoint re_match (p : regex) (s : str) {struct p} : option str :=
  match p with
  | [] => Some s
  | i :: p' =>
      match rep i with
      | Once =>
          match s with
          | [] => None
          | c :: s' => if cset i c then re_match p' s' else None
          end
      | Star => greedy (cset i) (re_match p') s
      | Plus =>
          match s with
          | [] => None
          | c :: s' =>
              if cset i c then greedy (cset i) (re_match p') s' else None
          end
      end
  end.

(** The scanning loop of [re.sub(pattern, repl, string)]: at each
    position the leftmost match is replaced and the scan resumes behind
    it; an empty match is replaced too and the scan moves on by one
    character.  [fuel] bounds the number of iterations; [None] is a
    loop that did not finish. *)
Fixpoint sub_loop (fuel : nat) (p : regex) (repl s : str) : option str :=
  match fuel with
  | O => None
  | S fuel' =>
      match s with
      | [] =>
          match re_match p [] with
          | Some _ => Some repl
          | None => Some []
          end
      | c :: s' =>
          match re_match p s with
          | Some rest =>
              if length rest <? length s then
                option_map (app repl) (sub_loop fuel' p repl rest)
              else
                option_map (fun o => repl ++ c :: o)
                           (sub_loop fuel' p repl s')
          | None => option_map (cons c) (sub_loop fuel' p repl s')
          end
      end
  end.

Definition sub (p : regex) (repl s : str) : option str :=
  sub_loop (S (length s)) p repl s.

(** Pattern syntax. *)
Definition chr (c : char) : item := Item (N.eqb c) Once.
Definition chars (s : string) : regex := map chr (lit s).
Definition space_class : char -> bool := isspace.       (* \s *)

End Re.

Import Re.

(** ** The scripts *)

Declare Scope pyopt_scope.
Notation "x <- e ;; k" :=
  (match e with Some x => k | None => None end)
  (at level 61, e at next level, right associativity) : pyopt_scope.
Open Scope pyopt_scope.

(** The pattern of the inline pass: [\s+dark:] followed by [*] of the
    negated set of [\s], the single quote and the double quote. *)
Definition dark_token_char (c : char) : bool :=
  negb (isspace c || (c =? SQ)%N || (c =? DQ)%N).

Definition pat_dark : regex :=
  Item space_class Plus :: chars "dark:" ++ [Item dark_token_char Star].

(** The patterns of the clean-up: two or more spaces; a space before a
    single quote, a double quote, a closing bracket, a comma. *)
Definition pat_spaces : regex := [chr SP; Item (N.eqb SP) Plus].
Definition pat_sp_squote : regex := [chr SP; chr SQ].
Definition pat_sp_dquote : regex := [chr SP; chr DQ].
Definition pat_sp_rbrack : regex := [chr SP; chr RBRACK].
Definition pat_sp_comma : regex := [chr SP; chr COMMA].

(** The test of the line loop: [stripped] starts with a single or a
    double quote followed by [dark:]. *)
Definition is_dark_entry (line : str) : bool :=
  let stripped := strip line in
  startswith stripped (lit "'dark:") || startswith stripped (DQ :: lit "dark:").

(** [for line in lines: ... continue / filtered_lines.append(line)]. *)
Fixpoint line_loop (lines filtered_lines : list str) : list str :=
  match lines with
  | [] => filtered_lines
  | line :: rest =>
      if is_dark_entry line then line_loop rest filtered_lines
      else line_loop rest (filtered_lines ++ [line])
  end.

(** scripts/remove-dark-classes.py *)
Module Classes.

Definition remove_dark_classes (content : str) : option str :=
  let lines := split LF content in
  let filtered_lines := line_loop lines [] in
  let content := join [LF] filtered_lines in
  content <- sub pat_dark [] content ;;
  content <- sub pat_spaces [SP] content ;;
  content <- sub pat_sp_squote [SQ] content ;;
  content <- sub pat_sp_dquote [DQ] content ;;
  content <- sub pat_sp_rbrack [RBRACK] content ;;
  content <- sub pat_sp_comma [COMMA] content ;;
  Some content.

End Classes.

(** scripts/remove-dark-admin-pages.py *)
Module AdminPages.

Definition remove_dark_classes (content : str) : option str :=
  let lines := split LF content in
  let filtered_lines := line_loop lines [] in
  let content := join [LF] filtered_lines in
  content <- sub pat_dark [] content ;;
  Some content.

End AdminPages.

(** scripts/remove-dark-from-components.py *)
Module Components.

Definition remove_dark_classes (content : str) : option str :=
  content <- sub pat_dark [] content ;;
  content <- sub pat_spaces [SP] content ;;
  content <- sub pat_sp_squote [SQ] content ;;
  content <- sub pat_sp_dquote [DQ] content ;;
  content <- sub pat_sp_comma [COMMA] content ;;
  Some content.

End Components.

(** The five clean-up substitutions of remove-dark-classes.py, in the
    order of the source. *)
Definition cleanup_passes (content : str) : option str :=
  content <- sub pat_spaces [SP] content ;;
  content <- sub pat_sp_squote [SQ] content ;;
  content <- sub pat_sp_dquote [DQ] content ;;
  content <- sub pat_sp_rbrack [RBRACK] content ;;
  content <- sub pat_sp_comma [COMMA] content ;;
  Some content.

(** ** Vocabulary of the properties *)

Definition dark : str := lit "dark:".

(** [u in s]: [u] occurs in [s]. *)
Fixpoint contains (s u : str) : bool :=
  startswith s u
  || match s with
     | [] => false
     | _ :: s' => contains s' u
     end.

(** No whitespace character is immediately followed by [dark:]. *)
Fixpoint ws_dark_free (s : str) : bool :=
  match s with
  | [] => true
  | c :: s' => negb (isspace c && startswith s' dark) && ws_dark_free s'
  end.

(** No [dark:] stands at the start of the text or right behind a
    whitespace character or a quote ([prev] is the character before
    the current position, if any). *)
Definition delimiter (prev : option char) : bool :=
  match prev with
  | None => true
  | Some c => isspace c || (c =? SQ)%N || (c =? DQ)%N
  end.

Fixpoint dark_token_free_from (prev : option char) (s : str) : bool :=
  negb (delimiter prev && startswith s dark)
  && match s with
     | [] => true
     | c :: s' => dark_token_free_from (Some c) s'
     end.

Definition dark_token_free (s : str) : bool := dark_token_free_from None s.

(** [ws_dark_free] of a text, read off its lines: behind a newline no
    line may start with [dark:]. *)
Definition line_dark_free (l : str) : bool :=
  negb (startswith l dark) && ws_dark_free l.

Definition lines_dark_free (ls : list str) : bool :=
  match ls with
  | [] => true
  | l :: rest => ws_dark_free l && forallb line_dark_free rest
  end.

(** No [a] is immediately followed by [b]. *)
Fixpoint pair_free (a b : char) (s : str) : bool :=
  match s with
  | [] => true
  | c :: s' => negb ((c =? a)%N && startswith s' [b]) && pair_free a b s'
  end.

(** Nothing for the clean-up to do: no two adjacent spaces and no space
    before a quote, a closing bracket or a comma. *)
Definition tidy (s : str) : bool :=
  pair_free SP SP s && pair_free SP SQ s && pair_free SP DQ s
  && pair_free SP RBRACK s && pair_free SP COMMA s.

(** The text does not end with a whitespace character. *)
Definition ends_clear (s : str) : bool :=
  match rev s with
  | [] => true
  | c :: _ => negb (isspace c)
  end.

(** The text does not start with a character of a [dark:] token. *)
Definition starts_clear (s : str) : bool :=
  match s with
  | [] => true
  | c :: _ => negb (dark_token_char c)
  end.

(** What is left of [s] behind a run of one or more whitespace
    characters, [dark:] and the token characters that follow, when [s]
    starts with such a run. *)
Definition dark_run_end (s : str) : option str :=
  match s with
  | [] => None
  | c :: s' =>
      if isspace c then
        let t := dropwhile isspace s' in
        if startswith t dark
        then Some (dropwhile dark_token_char (skipn 5 t))
        else None
      else None
  end.

(** The first pass of remove-dark-classes.py and
    remove-dark-admin-pages.py on its own: split, line loop, join. *)
Definition elide (content : str) : str :=
  join [LF] (line_loop (split LF content) []).

(** The normalization of the specification, step 3, in its words:
    delete every space that stands immediately before [x]; with a space
    for [x] this leaves one space of every run of spaces. *)
Fixpoint del_space_before (x : char) (s : str) : str :=
  match s with
  | [] => []
  | c :: s' =>
      if (c =? SP)%N && startswith s' [x] then del_space_before x s'
      else c :: del_space_before x s'
  end.

Definition normalize (s : str) : str :=
  del_space_before COMMA
    (del_space_before RBRACK
       (del_space_before DQ
          (del_space_before SQ
             (del_space_before SP s)))).

(** The clean-up of remove-dark-from-components.py has no bracket pass. *)
Definition normalize4 (s : str) : str :=
  del_space_before COMMA
    (del_space_before DQ
       (del_space_before SQ
          (del_space_before SP s))).

(** [Sub p repl s o]: the scan of [re.sub] over [s] yields [o], for a
    pattern whose matches are never empty. *)
Inductive Sub (p : regex) (repl : str) : str -> str -> Prop :=
| Sub_end : Sub p repl [] []
| Sub_keep c s o :
    re_match p (c :: s) = None ->
    Sub p repl s o ->
    Sub p repl (c :: s) (c :: o)
| Sub_hit s rest o :
    re_match p s = Some rest ->
    Sub p repl rest o ->
    Sub p repl s (repl ++ o).

(** A pattern that starts with an item taken at least once. *)
Definition proper (p : regex) : bool :=
  match p with
  | [] => false
  | i :: _ => match rep i with Star => false | _ => true end
  end.

(** [subseq o s]: [o] is [s] with some characters deleted. *)
Inductive subseq : str -> str -> Prop :=
| subseq_nil : subseq [] []
| subseq_take c o s : subseq o s -> subseq (c :: o) (c :: s)
| subseq_drop c o s : subseq o s -> subseq o (c :: s).

(** Number of newline characters. *)
Definition newlines (s : str) : nat := length (filter (N.eqb LF) s).

(** Nothing for the clean-up of remove-dark-from-components.py to do. *)
Definition tidy4 (s : str) : bool :=
  pair_free SP SP s && pair_free SP SQ s && pair_free SP DQ s
  && pair_free SP COMMA s.

(** ** Files and the drivers

    The [main] of each script and [process_file], over a file system
    that is passed along.  The list of files is what [glob] returned;
    what is printed is kept as a list of lines. *)

Module Io.

Definition path := string.

(** [contents] is the text [f.read()] returns for a path, [None] where
    opening or decoding the file raises; [writable] tells whether
    [open(path, 'w')] succeeds. *)
Record filesystem := Filesystem {
  contents : path -> option str;
  writable : path -> bool
}.

Definition read_text (fs : filesystem) (p : path) : option str :=
  contents fs p.

Definition write_text (fs : filesystem) (p : path) (text : str)
  : option filesystem :=
  if writable fs p then
    Some (Filesystem
            (fun q => if String.eqb q p then Some text else contents fs q)
            (writable fs))
  else None.

(** The lines the scripts print. *)
Inductive printed :=
| Processing (n : nat)                (* Processing n ... files... *)
| Tick (p : path)                     (* the check mark and the file *)
| Cross (p : path)                    (* the cross, the file and the error *)
| Leftover (p : path) (count : nat)   (* file: count remaining *)
| Total (n : nat)                     (* Modified / Processed n files *)
| AllRemoved                          (* All dark: classes removed ... *)
| Warning (remaining : nat).          (* Warning: n dark: classes still remain *)

(** How a [main] ends: it returns, or an exception of a file operation
    on [p] leaves it. *)
Inductive ended := Returned | Raised (p : path).

(** [a != b] on texts. *)
Definition str_ne (a b : str) : bool :=
  if list_eq_dec N.eq_dec a b then false else true.

End Io.

Import Io.

(** *** [re.findall] with the pattern of the verification: a word
    boundary, then [dark:].  A word character is an alphanumeric
    character or the underscore; the table of [str.isalnum] is a
    parameter. *)
Section Verification.

Variable isalnum : char -> bool.

Definition isword (c : char) : bool := isalnum c || (c =? 95)%N.

(** A boundary: exactly one of the character here and the character
    before is a word character (none counts as not a word character). *)
Definition at_boundary (prev : option char) (s : str) : bool :=
  xorb (match s with c :: _ => isword c | [] => false end)
       (match prev with Some c => isword c | None => false end).

Definition match_bdark (prev : option char) (s : str) : option str :=
  if at_boundary prev s then re_match (chars "dark:") s else None.

Definition last_char (m : str) : option char :=
  match rev m with
  | [] => None
  | c :: _ => Some c
  end.

(** The scan of [re.findall], counting the matches: behind a match the
    scan resumes at its end, with its last character before it. *)
Fixpoint findall_loop (fuel : nat) (prev : option char) (s : str)
  : option nat :=
  match fuel with
  | O => None
  | S fuel' =>
      match s with
      | [] =>
          match match_bdark prev [] with
          | Some _ => Some 1
          | None => Some 0
          end
      | c :: s' =>
          match match_bdark prev s with
          | Some rest =>
              if length rest <? length s then
                option_map S
                  (findall_loop fuel'
                     (last_char (firstn (length s - length rest) s)) rest)
              else option_map S (findall_loop fuel' (Some c) s')
          | None => findall_loop fuel' (Some c) s'
          end
      end
  end.

(** [len(re.findall(pattern, content))]. *)
Definition findall_count (content : str) : option nat :=
  findall_loop (S (length content)) None content.

(** The second loop of the [main] of remove-dark-classes.py and of
    remove-dark-from-components.py: count what is left, file by file. *)
Fixpoint verify_files (files : list path) (fs : filesystem)
         (out : list printed) (remaining : nat)
  : option (list printed * nat * ended) :=
  match files with
  | [] => Some (out, remaining, Returned)
  | file_path :: rest =>
      match read_text fs file_path with
      | None => Some (out, remaining, Raised file_path)
      | Some content =>
          count <- findall_count content ;;
          if 0 <? count then
            verify_files rest fs (out ++ [Leftover file_path count])
                         (remaining + count)
          else verify_files rest fs out remaining
      end
  end.

(** The end of both [main]s: verify and report. *)
Definition verify_and_report (files : list path) (fs : filesystem)
           (out : list printed)
  : option (filesystem * list printed * ended) :=
  v <- verify_files files fs out 0 ;;
  match v with
  | (out, remaining, Raised p) => Some (fs, out, Raised p)
  | (out, remaining, Returned) =>
      if remaining =? 0 then Some (fs, out ++ [AllRemoved], Returned)
      else Some (fs, out ++ [Warning remaining], Returned)
  end.

End Verification.

(** scripts/remove-dark-classes.py, [main] *)
Module ClassesDriver.

Fixpoint rewrite_files (files : list path) (fs : filesystem)
         (out : list printed)
  : option (filesystem * list printed * ended) :=
  match files with
  | [] => Some (fs, out, Returned)
  | file_path :: rest =>
      match read_text fs file_path with
      | None => Some (fs, out, Raised file_path)
      | Some content =>
          cleaned_content <- Classes.remove_dark_classes content ;;
          if str_ne content cleaned_content then
            match write_text fs file_path cleaned_content with
            | None => Some (fs, out, Raised file_path)
            | Some fs' => rewrite_files rest fs' (out ++ [Tick file_path])
            end
          else rewrite_files rest fs out
      end
  end.

Definition main (isalnum : char -> bool) (files : list path)
           (fs : filesystem)
  : option (filesystem * list printed * ended) :=
  let out := [Processing (length files)] in
  r <- rewrite_files files fs out ;;
  match r with
  | (fs, out, Raised p) => Some (fs, out, Raised p)
  | (fs, out, Returned) => verify_and_report isalnum files fs out
  end.

End ClassesDriver.

(** scripts/remove-dark-admin-pages.py, [process_file] and [main] *)
Module AdminPagesDriver.

(** Every exception is caught: the result is the file system, what was
    printed and the number returned. *)
Definition process_file (filepath : path) (fs : filesystem)
           (out : list printed)
  : option (filesystem * list printed * nat) :=
  match read_text fs filepath with
  | None => Some (fs, out ++ [Cross filepath], 0)
  | Some original =>
      modified <- AdminPages.remove_dark_classes original ;;
      if str_ne modified original then
        match write_text fs filepath modified with
        | None => Some (fs, out ++ [Cross filepath], 0)
        | Some fs' => Some (fs', out ++ [Tick filepath], 1)
        end
      else Some (fs, out, 0)
  end.

Fixpoint process_files (files : list path) (fs : filesystem)
         (out : list printed) (count : nat)
  : option (filesystem * list printed * nat) :=
  match files with
  | [] => Some (fs, out, count)
  | filepath :: rest =>
      r <- process_file filepath fs out ;;
      match r with
      | (fs, out, n) => process_files rest fs out (count + n)
      end
  end.

Definition main (astro_files : list path) (fs : filesystem)
  : option (filesystem * list printed) :=
  let count := 0 in
  let out := [Processing (length astro_files)] in
  r <- process_files astro_files fs out count ;;
  match r with
  | (fs, out, count) => Some (fs, out ++ [Total count])
  end.

End AdminPagesDriver.

(** scripts/remove-dark-from-components.py, [main] *)
Module ComponentsDriver.

Fixpoint rewrite_files (files : list path) (fs : filesystem)
         (out : list printed) (modified_count : nat)
  : option (filesystem * list printed * nat * ended) :=
  match files with
  | [] => Some (fs, out, modified_count, Returned)
  | file_path :: rest =>
      match read_text fs file_path with
      | None => Some (fs, out, modified_count, Raised file_path)
      | Some content =>
          cleaned_content <- Components.remove_dark_classes content ;;
          if str_ne content cleaned_content then
            match write_text fs file_path cleaned_content with
            | None => Some (fs, out, modified_count, Raised file_path)
            | Some fs' =>
                rewrite_files rest fs' (out ++ [Tick file_path])
                              (modified_count + 1)
            end
          else rewrite_files rest fs out modified_count
      end
  end.

Definition main (isalnum : char -> bool) (files : list path)
           (fs : filesystem)
  : option (filesystem * list printed * ended) :=
  let out := [Processing (length files)] in
  let modified_count := 0 in
  r <- rewrite_files files fs out modified_count ;;
  match r with
  | (fs, out, modified_count, Raised p) => Some (fs, out, Raised p)
  | (fs, out, modified_count, Returned) =>
      verify_and_report isalnum files fs (out ++ [Total modified_count])
  end.

End ComponentsDriver.

(** *** Vocabulary of the drivers *)














(** Case analysis on the test of the first conditional of the goal. *)
Ltac case_if :=
  match goal with
  | |- context [if ?b then _ else _] => destruct b
  end.

Ltac case_if_eqn E :=
  match goal with
  | |- context [if ?b then _ else _] => destruct b eqn:E
  end.

(** ** Strings *)

Lemma startswith_nil s : startswith s [] = true.
Proof. destruct s; reflexivity. Qed.

Lemma startswith_spec s u :
  startswith s u = true <-> exists t, s = u ++ t.
Proof.
  revert s; induction u as [|p u IH]; intros s; simpl.
  - split; [exists s; reflexivity | reflexivity].
  - destruct s as [|c s]; [split; [discriminate | intros [t H]; discriminate]|].
    rewrite andb_true_iff, N.eqb_eq, IH. split.
    + intros [-> [t ->]]. now exists t.
    + intros [t H]. injection H as -> ->. split; [reflexivity | now exists t].
Qed.

Lemma startswith_app s u t :
  startswith s u = true -> startswith (s ++ t) u = true.
Proof.
  rewrite !startswith_spec. intros [r ->]. exists (r ++ t). now rewrite app_assoc.
Qed.

Lemma startswith_refl_app u t : startswith (u ++ t) u = true.
Proof. apply startswith_spec. now exists t. Qed.

Lemma dropwhile_app_stop f u c t :
  forallb f u = true -> f c = false -> dropwhile f (u ++ c :: t) = c :: t.
Proof.
  induction u as [|x u IH]; simpl; intros Hu Hc.
  - now rewrite Hc.
  - apply andb_true_iff in Hu as [-> Hu]. now apply IH.
Qed.

Lemma dropwhile_all f u : forallb f u = true -> dropwhile f u = [].
Proof.
  induction u as [|x u IH]; simpl; [reflexivity|].
  intros H. apply andb_true_iff in H as [-> H]. now apply IH.
Qed.

Lemma dropwhile_split f s :
  exists u, s = u ++ dropwhile f s /\ forallb f u = true.
Proof.
  induction s as [|c s [u [E Hu]]]; simpl.
  - now exists [].
  - destruct (f c) eqn:Hc.
    + exists (c :: u). simpl. rewrite Hc, Hu. split; [now f_equal | reflexivity].
    + now exists [].
Qed.

Lemma dropwhile_head f s :
  match dropwhile f s with [] => True | c :: _ => f c = false end.
Proof.
  induction s as [|c s IH]; simpl; [exact I|].
  destruct (f c) eqn:Hc; [exact IH | exact Hc].
Qed.

(** ** The matcher and the scanning loop *)

Section Engine.

Variable p : regex.
Variable repl : str.

Lemma greedy_suffix cs (k : str -> option str) :
  (forall t r, k t = Some r -> exists m, t = m ++ r) ->
  forall s rest, greedy cs k s = Some rest -> exists m, s = m ++ rest.
Proof.
  intros Hk s; induction s as [|c s IH]; simpl; intros rest H.
  - now apply Hk.
  - destruct (cs c); [|now apply Hk].
    destruct (greedy cs k s) as [r|] eqn:G; [|now apply Hk].
    injection H as ->. destruct (IH _ eq_refl) as [m ->].
    now exists (c :: m).
Qed.

Lemma re_match_suffix (q : regex) :
  forall s rest, re_match q s = Some rest -> exists m, s = m ++ rest.
Proof.
  induction q as [|i q IH]; simpl; intros s rest H.
  - injection H as ->. now exists [].
  - destruct (rep i).
    + destruct s as [|c s]; [discriminate|].
      destruct (cset i c); [|discriminate].
      destruct (IH _ _ H) as [m ->]. now exists (c :: m).
    + eapply greedy_suffix; eauto.
    + destruct s as [|c s]; [discriminate|].
      destruct (cset i c); [|discriminate].
      destruct (greedy_suffix _ _ IH _ _ H) as [m ->]. now exists (c :: m).
Qed.

Lemma re_match_length (q : regex) s rest :
  re_match q s = Some rest -> length rest <= length s.
Proof.
  intros H. destruct (re_match_suffix _ _ _ H) as [m ->].
  rewrite length_app. lia.
Qed.

Hypothesis Hproper : proper p = true.

Lemma proper_nil : re_match p [] = None.
Proof.
  destruct p as [|i q]; [discriminate|]. simpl in *.
  destruct (rep i); [reflexivity | discriminate | reflexivity].
Qed.

Lemma proper_consumes s rest :
  re_match p s = Some rest -> length rest < length s.
Proof.
  destruct p as [|i q]; [discriminate|]. simpl in *.
  destruct (rep i); [|discriminate|];
    (destruct s as [|c s]; [discriminate|]);
    (destruct (cset i c); [|discriminate]); intros H; simpl.
  - apply re_match_length in H. lia.
  - destruct (greedy_suffix _ _ (re_match_suffix q) _ _ H) as [m ->].
    rewrite length_app. lia.
Qed.

(** With fuel beyond the length of the text the loop finishes, and its
    result is the one [Sub] describes. *)
Lemma sub_loop_Sub fuel :
  forall s, length s < fuel ->
  exists o, sub_loop fuel p repl s = Some o /\ Sub p repl s o.
Proof.
  induction fuel as [|fuel IH]; intros s Hs; [lia|].
  destruct s as [|c s]; simpl.
  - rewrite proper_nil. exists []. split; [reflexivity | constructor].
  - destruct (re_match p (c :: s)) as [rest|] eqn:M.
    + pose proof (proper_consumes _ _ M) as Hlt. simpl in Hlt.
      assert (L : (length rest <? S (length s)) = true)
        by now apply Nat.ltb_lt.
      rewrite L.
      destruct (IH rest) as [o [E HS]]; [simpl in Hs; lia|].
      rewrite E. exists (repl ++ o). split; [reflexivity|].
      eapply Sub_hit; eauto.
    + destruct (IH s) as [o [E HS]]; [simpl in Hs; lia|].
      rewrite E. exists (c :: o). split; [reflexivity|].
      now constructor.
Qed.

Lemma sub_Sub_ex s : exists o, sub p repl s = Some o /\ Sub p repl s o.
Proof. apply sub_loop_Sub. lia. Qed.

Lemma Sub_fun s o1 :
  Sub p repl s o1 -> forall o2, Sub p repl s o2 -> o1 = o2.
Proof.
  induction 1 as [|c s o M HS IH|s rest o M HS IH]; intros o2 H2.
  - inversion H2 as [| |s' rest' o' M']; subst; [reflexivity|].
    rewrite proper_nil in M'. discriminate.
  - inversion H2 as [|c' s' o' M' HS'|s' rest' o' M' HS']; subst.
    + f_equal. now apply IH.
    + congruence.
  - inversion H2 as [|c' s' o' M' HS'|s' rest' o' M' HS']; subst.
    + rewrite proper_nil in M. discriminate.
    + congruence.
    + rewrite M in M'. injection M' as <-. f_equal. now apply IH.
Qed.

Lemma sub_iff_Sub s o : sub p repl s = Some o <-> Sub p repl s o.
Proof.
  destruct (sub_Sub_ex s) as [o' [E HS]]. split.
  - intros H. rewrite E in H. now injection H as <-.
  - intros H. rewrite E. f_equal. eapply Sub_fun; eauto.
Qed.

Lemma Sub_sub s o : Sub p repl s o -> sub p repl s = Some o.
Proof. apply sub_iff_Sub. Qed.

(** Where the pattern matches nowhere, the text is returned as it is. *)
Lemma Sub_no_match s :
  (forall u t, s = u ++ t -> re_match p t = None) -> Sub p repl s s.
Proof.
  induction s as [|c s IH]; intros H; [constructor|].
  constructor.
  - now apply (H []).
  - apply IH. intros u t ->. now apply (H (c :: u)).
Qed.

End Engine.

(** ** The patterns of the scripts *)

Lemma greedy_last cs (k : str -> option str) :
  (forall t, k t = Some t) ->
  forall s, greedy cs k s = Some (dropwhile cs s).
Proof.
  intros Hk s; induction s as [|c s IH]; simpl; [apply Hk|].
  destruct (cs c); [now rewrite IH | apply Hk].
Qed.

Lemma greedy_skip cs (k : str -> option str) :
  (forall c t, cs c = true -> k (c :: t) = None) ->
  forall s, greedy cs k s = k (dropwhile cs s).
Proof.
  intros Hk s; induction s as [|c s IH]; simpl; [reflexivity|].
  destruct (cs c) eqn:Hc; [|reflexivity].
  rewrite IH. destruct (k (dropwhile cs s)) eqn:K; [reflexivity|].
  now apply Hk.
Qed.

Lemma re_match_chars u q :
  forall t, re_match (map chr u ++ q) t
            = if startswith t u then re_match q (skipn (length u) t) else None.
Proof.
  induction u as [|x u IH]; intros t; [reflexivity|].
  destruct t as [|c t]; [reflexivity|].
  cbn [map app re_match chr rep cset startswith length skipn].
  rewrite (N.eqb_sym x c). destruct (c =? x)%N; [apply IH | reflexivity].
Qed.

Lemma re_match_dark s : re_match pat_dark s = dark_run_end s.
Proof.
  destruct s as [|c s]; [reflexivity|].
  unfold pat_dark, dark_run_end, space_class.
  cbn [re_match rep cset]. destruct (isspace c); [|reflexivity].
  rewrite greedy_skip.
  - unfold chars. rewrite re_match_chars. fold dark.
    destruct (startswith (dropwhile isspace s) dark); [|reflexivity].
    cbn [re_match rep cset]. now rewrite greedy_last.
  - intros x t Hx. unfold chars. rewrite re_match_chars.
    replace (startswith (x :: t) (lit "dark:")) with false; [reflexivity|].
    cbn. destruct (N.eqb_spec x 100) as [->|]; [discriminate Hx | reflexivity].
Qed.

Lemma re_match_pair a b s :
  re_match [chr a; chr b] s
  = match s with
    | c1 :: c2 :: rest =>
        if (c1 =? a)%N && (c2 =? b)%N then Some rest else None
    | _ => None
    end.
Proof.
  destruct s as [|c1 [|c2 rest]]; cbn [re_match chr rep cset];
    rewrite ?(N.eqb_sym a c1), ?(N.eqb_sym b c2).
  - reflexivity.
  - now destruct (c1 =? a)%N.
  - now destruct (c1 =? a)%N, (c2 =? b)%N.
Qed.

Lemma re_match_spaces s :
  re_match pat_spaces s
  = match s with
    | c1 :: c2 :: rest =>
        if (c1 =? SP)%N && (c2 =? SP)%N
        then Some (dropwhile (N.eqb SP) rest) else None
    | _ => None
    end.
Proof.
  unfold pat_spaces.
  destruct s as [|c1 [|c2 rest]]; cbn [re_match chr rep cset];
    rewrite ?(N.eqb_sym SP c1), ?(N.eqb_sym SP c2).
  - reflexivity.
  - now destruct (c1 =? SP)%N.
  - destruct (c1 =? SP)%N, (c2 =? SP)%N; cbn [andb]; try reflexivity.
    now rewrite greedy_last.
Qed.

(** ** The clean-up substitutions delete spaces *)

Lemma del_space_run rest :
  del_space_before SP (SP :: rest)
  = SP :: del_space_before SP (dropwhile (N.eqb SP) rest).
Proof.
  induction rest as [|c r IH]; [reflexivity|].
  cbn [dropwhile]. destruct (N.eqb_spec SP c) as [<-|Hc].
  - rewrite <- IH. reflexivity.
  - cbn [del_space_before startswith].
    destruct (N.eqb_spec c SP) as [->|_]; [now contradiction Hc|].
    reflexivity.
Qed.

Lemma dropwhile_length f s : length (dropwhile f s) <= length s.
Proof.
  destruct (dropwhile_split f s) as [u [E _]].
  rewrite E at 2. rewrite length_app. lia.
Qed.

Lemma Sub_pair x :
  x <> SP ->
  forall s, Sub [chr SP; chr x] [x] s (del_space_before x s).
Proof.
  intros Hx s. remember (length s) as n eqn:Hn.
  assert (Hle : length s <= n) by lia. clear Hn.
  revert s Hle. induction n as [|n IH]; intros s Hle.
  - destruct s; [constructor | simpl in Hle; lia].
  - destruct s as [|c1 [|c2 rest]].
    + constructor.
    + cbn [del_space_before startswith]. rewrite andb_false_r.
      constructor; [now rewrite re_match_pair | constructor].
    + cbn [del_space_before startswith].
      destruct ((c1 =? SP)%N && ((c2 =? x)%N && true)) eqn:E.
      * apply andb_true_iff in E as [E1 E2].
        apply andb_true_iff in E2 as [E2 _].
        apply N.eqb_eq in E1, E2. subst c1 c2.
        destruct (N.eqb_spec x SP) as [|_]; [contradiction|].
        cbn [andb]. apply (Sub_hit _ [x] (SP :: x :: rest) rest).
        -- rewrite re_match_pair, !N.eqb_refl. reflexivity.
        -- apply IH. simpl in Hle. lia.
      * constructor.
        -- rewrite re_match_pair. rewrite andb_true_r in E. now rewrite E.
        -- apply IH. simpl in *. lia.
Qed.

Lemma Sub_spaces s : Sub pat_spaces [SP] s (del_space_before SP s).
Proof.
  remember (length s) as n eqn:Hn.
  assert (Hle : length s <= n) by lia. clear Hn.
  revert s Hle. induction n as [|n IH]; intros s Hle.
  - destruct s; [constructor | simpl in Hle; lia].
  - destruct s as [|c1 [|c2 rest]].
    + constructor.
    + cbn [del_space_before startswith]. rewrite andb_false_r.
      constructor; [now rewrite re_match_spaces | constructor].
    + destruct ((c1 =? SP)%N && (c2 =? SP)%N) eqn:E.
      * apply andb_true_iff in E as [E1 E2].
        apply N.eqb_eq in E1, E2. subst c1 c2.
        change (del_space_before SP (SP :: SP :: rest))
          with (del_space_before SP (SP :: rest)).
        rewrite del_space_run.
        apply (Sub_hit _ [SP] (SP :: SP :: rest)
                 (dropwhile (N.eqb SP) rest)).
        -- now rewrite re_match_spaces.
        -- apply IH. pose proof (dropwhile_length (N.eqb SP) rest).
           simpl in Hle. lia.
      * cbn [del_space_before startswith]. rewrite andb_true_r, E.
        constructor; [now rewrite re_match_spaces, E|].
        apply IH. simpl in *. lia.
Qed.

Lemma sub_pair x s :
  x <> SP -> sub [chr SP; chr x] [x] s = Some (del_space_before x s).
Proof. intros Hx. apply Sub_sub; [reflexivity | now apply Sub_pair]. Qed.

Lemma sub_spaces s : sub pat_spaces [SP] s = Some (del_space_before SP s).
Proof. apply Sub_sub; [reflexivity | apply Sub_spaces]. Qed.

Lemma sub_dark_ex s : exists o, sub pat_dark [] s = Some o /\ Sub pat_dark [] s o.
Proof. now apply sub_Sub_ex. Qed.

(** The three scripts as compositions of their passes. *)
Lemma classes_passes s :
  Classes.remove_dark_classes s
  = option_map normalize (sub pat_dark [] (elide s)).
Proof.
  unfold Classes.remove_dark_classes, elide.
  destruct (sub pat_dark [] _) as [o|]; [|reflexivity]. cbn [option_map].
  unfold pat_sp_squote, pat_sp_dquote, pat_sp_rbrack, pat_sp_comma.
  rewrite sub_spaces, !sub_pair by discriminate. reflexivity.
Qed.

Lemma admin_pages_passes s :
  AdminPages.remove_dark_classes s = sub pat_dark [] (elide s).
Proof.
  unfold AdminPages.remove_dark_classes, elide.
  now destruct (sub pat_dark [] _).
Qed.

Lemma components_passes s :
  Components.remove_dark_classes s
  = option_map normalize4 (sub pat_dark [] s).
Proof.
  unfold Components.remove_dark_classes.
  destruct (sub pat_dark [] _) as [o|]; [|reflexivity]. cbn [option_map].
  unfold pat_sp_squote, pat_sp_dquote, pat_sp_comma.
  rewrite sub_spaces, !sub_pair by discriminate. reflexivity.
Qed.

(** ** The inline pass leaves no whitespace before [dark:] *)

Lemma dark_token_chars : forallb dark_token_char dark = true.
Proof. reflexivity. Qed.

Lemma dark_run_end_clear s rest :
  dark_run_end s = Some rest -> starts_clear rest = true.
Proof.
  unfold dark_run_end. destruct s as [|c s]; [discriminate|].
  destruct (isspace c); [|discriminate]. cbv zeta.
  destruct (startswith _ dark); [|discriminate].
  intros H; injection H as <-.
  pose proof (dropwhile_head dark_token_char
                (skipn 5 (dropwhile isspace s))) as Hh.
  destruct (dropwhile dark_token_char _) as [|x r]; [reflexivity|].
  simpl. now rewrite Hh.
Qed.

Lemma dark_run_end_hit c s :
  isspace c = true -> startswith s dark = true ->
  dark_run_end (c :: s) <> None.
Proof.
  intros Hc Hs. unfold dark_run_end. rewrite Hc. cbv zeta.
  apply startswith_spec in Hs as [t ->].
  change (dropwhile isspace (dark ++ t)) with (dark ++ t).
  now rewrite startswith_refl_app.
Qed.

Lemma Sub_dark_head s o :
  Sub pat_dark [] s o -> starts_clear s = true -> starts_clear o = true.
Proof.
  induction 1 as [|c s o M HS IH|s rest o M HS IH]; intros Hs.
  - reflexivity.
  - exact Hs.
  - apply IH. rewrite re_match_dark in M. eapply dark_run_end_clear; eauto.
Qed.

Lemma starts_clear_prefix o x u :
  starts_clear o = true -> dark_token_char x = true ->
  startswith o (x :: u) = false.
Proof.
  destruct o as [|c o]; [reflexivity|]. simpl. intros Hc Hx.
  destruct (N.eqb_spec c x) as [->|]; [|reflexivity].
  rewrite Hx in Hc. discriminate.
Qed.

Lemma Sub_dark_prefix s o :
  Sub pat_dark [] s o ->
  forall u, forallb dark_token_char u = true ->
            startswith o u = true -> startswith s u = true.
Proof.
  induction 1 as [|c s o M HS IH|s rest o M HS IH]; intros u Hu Ho.
  - exact Ho.
  - destruct u as [|x u]; [reflexivity|]. simpl in *.
    apply andb_true_iff in Hu as [_ Hu].
    apply andb_true_iff in Ho as [-> Ho]. now apply IH.
  - destruct u as [|x u]; [reflexivity|]. exfalso.
    simpl in Hu. apply andb_true_iff in Hu as [Hx _].
    rewrite re_match_dark in M. apply dark_run_end_clear in M.
    pose proof (Sub_dark_head _ _ HS M) as Hc.
    cbn [app] in Ho. rewrite (starts_clear_prefix o x u Hc Hx) in Ho.
    discriminate.
Qed.

Lemma Sub_dark_free s o : Sub pat_dark [] s o -> ws_dark_free o = true.
Proof.
  induction 1 as [|c s o M HS IH|s rest o M HS IH].
  - reflexivity.
  - cbn [ws_dark_free]. rewrite IH, andb_true_r.
    destruct (isspace c) eqn:Hc; [|reflexivity].
    destruct (startswith o dark) eqn:Ho; [|reflexivity]. exfalso.
    rewrite re_match_dark in M.
    assert (Hs : startswith s dark = true)
      by (eapply Sub_dark_prefix; eauto; apply dark_token_chars).
    now apply (dark_run_end_hit c s Hc Hs).
  - exact IH.
Qed.

(** The clean-up never brings a whitespace character next to [dark:]. *)
Lemma del_space_prefix x s :
  forall u, forallb (fun c => negb (c =? x)%N) u = true ->
            startswith (del_space_before x s) u = true ->
            startswith s u = true.
Proof.
  induction s as [|c s IH]; intros u Hu H; [exact H|].
  destruct u as [|y u]; [reflexivity|].
  cbn [del_space_before] in H. cbn [forallb] in Hu.
  apply andb_true_iff in Hu as [Hy Hu].
  match type of H with
  | context [if ?b then _ else _] => destruct b eqn:E
  end.
  - exfalso. apply andb_true_iff in E as [_ E].
    apply IH in H; [|cbn [forallb]; now rewrite Hy, Hu].
    destruct s as [|d s]; [discriminate|]. simpl in E, H.
    apply andb_true_iff in E as [E _]. apply andb_true_iff in H as [H _].
    apply N.eqb_eq in E, H. subst. rewrite N.eqb_refl in Hy. discriminate.
  - simpl in *. apply andb_true_iff in H as [-> H]. now apply IH.
Qed.

Lemma del_space_dark_free x s :
  forallb (fun c => negb (c =? x)%N) dark = true ->
  ws_dark_free s = true -> ws_dark_free (del_space_before x s) = true.
Proof.
  intros Hx. induction s as [|c s IH]; [reflexivity|].
  cbn [ws_dark_free del_space_before]. intros H.
  apply andb_true_iff in H as [Hc Hs].
  case_if; [now apply IH|].
  cbn [ws_dark_free]. rewrite (IH Hs), andb_true_r.
  destruct (isspace c); [|reflexivity]. cbn [andb] in *.
  destruct (startswith (del_space_before x s) dark) eqn:E; [|reflexivity].
  apply del_space_prefix in E; [|exact Hx]. now rewrite E in Hc.
Qed.

Lemma normalize_dark_free s :
  ws_dark_free s = true -> ws_dark_free (normalize s) = true.
Proof.
  intros H. unfold normalize.
  repeat (apply del_space_dark_free; [reflexivity|]). exact H.
Qed.

Lemma ws_dark_free_spec s :
  ws_dark_free s = true <->
  forall pre c post, s = pre ++ c :: dark ++ post -> isspace c = false.
Proof.
  induction s as [|d s IH]; cbn [ws_dark_free].
  - split; [|reflexivity]. intros _ [|x pre] c post H; discriminate.
  - rewrite andb_true_iff, IH, negb_true_iff, andb_false_iff. split.
    + intros [Hd Hs] [|x pre] c post E;
        remember dark as dk eqn:Hdk in *; injection E as -> ->.
      * destruct Hd as [Hd|Hd]; [exact Hd|].
        now rewrite startswith_refl_app in Hd.
      * eapply Hs; reflexivity.
    + intros H. split.
      * destruct (isspace d) eqn:Hd; [right | now left].
        destruct (startswith s dark) eqn:E; [|reflexivity].
        apply startswith_spec in E as [t ->].
        rewrite (H [] d t eq_refl) in Hd. discriminate.
      * intros pre c post ->. now apply (H (d :: pre) c post).
Qed.

(** ** Lines: [split], [join], [strip] and the line loop *)

Lemma join_cons sep l ls :
  join sep (l :: ls)
  = l ++ match ls with [] => [] | _ :: _ => sep ++ join sep ls end.
Proof. destruct ls; [now rewrite app_nil_r | reflexivity]. Qed.

Lemma split_nonempty sep s : split sep s <> [].
Proof.
  destruct s as [|c s]; simpl; [discriminate|].
  destruct (c =? sep)%N; [discriminate|].
  destruct (split sep s); discriminate.
Qed.

Lemma join_split sep s : join [sep] (split sep s) = s.
Proof.
  induction s as [|c s IH]; [reflexivity|]. cbn [split].
  destruct (N.eqb_spec c sep) as [->|Hc].
  - rewrite join_cons. pose proof (split_nonempty sep s) as Hn.
    destruct (split sep s); [contradiction|]. now rewrite IH.
  - pose proof (split_nonempty sep s) as Hn.
    destruct (split sep s) as [|l ls]; [contradiction|].
    rewrite join_cons in *. rewrite <- IH. reflexivity.
Qed.

Lemma line_loop_filter lines acc :
  line_loop lines acc
  = acc ++ filter (fun l => negb (is_dark_entry l)) lines.
Proof.
  revert acc; induction lines as [|l ls IH]; intros acc; cbn [line_loop filter].
  - now rewrite app_nil_r.
  - destruct (is_dark_entry l); cbn [negb]; rewrite IH; [reflexivity|].
    now rewrite <- app_assoc.
Qed.

Lemma elide_filter s :
  elide s = join [LF] (filter (fun l => negb (is_dark_entry l)) (split LF s)).
Proof. unfold elide. now rewrite line_loop_filter. Qed.

Lemma forallb_rev (f : char -> bool) u :
  forallb f (rev u) = forallb f u.
Proof.
  induction u as [|x u IH]; [reflexivity|]. simpl.
  rewrite forallb_app, IH. simpl. rewrite andb_true_r. apply andb_comm.
Qed.

Lemma dropwhile_app_keep f a z b :
  f z = false -> dropwhile f (a ++ z :: b) = dropwhile f a ++ z :: b.
Proof.
  intros Hz. induction a as [|x a IH]; simpl; [now rewrite Hz|].
  now destruct (f x).
Qed.

Lemma rstrip_prefix t :
  exists w, t = rstrip t ++ w /\ forallb isspace w = true.
Proof.
  unfold rstrip, lstrip.
  destruct (dropwhile_split isspace (rev t)) as [u [E Hu]].
  exists (rev u). split; [|now rewrite forallb_rev].
  rewrite <- rev_app_distr, <- E. now rewrite rev_involutive.
Qed.

Lemma rstrip_keeps p z r :
  isspace z = false -> exists r', rstrip (p ++ z :: r) = p ++ z :: r'.
Proof.
  intros Hz. unfold rstrip, lstrip.
  rewrite rev_app_distr. cbn [rev]. rewrite <- app_assoc. cbn [app].
  rewrite (dropwhile_app_keep _ _ _ _ Hz), rev_app_distr. cbn [rev].
  rewrite rev_involutive, <- app_assoc. cbn [app]. eexists. reflexivity.
Qed.

(** The line test in terms of the line itself: whitespace, a quote,
    [dark:], anything. *)
Lemma is_dark_entry_spec line :
  is_dark_entry line = true <->
  exists ws q rest,
    line = ws ++ q :: dark ++ rest
    /\ forallb isspace ws = true /\ (q = SQ \/ q = DQ).
Proof.
  unfold is_dark_entry, strip. cbv zeta.
  change (lit "'dark:") with (SQ :: dark).
  change (lit "dark:") with dark.
  rewrite orb_true_iff. split.
  - intros H.
    assert (Hq : exists q, (q = SQ \/ q = DQ)
                 /\ startswith (rstrip (lstrip line)) (q :: dark) = true)
      by (destruct H; [exists SQ | exists DQ]; auto).
    destruct Hq as [q [Hq Hs]].
    destruct (rstrip_prefix (lstrip line)) as [w [E _]].
    apply startswith_spec in Hs as [r Hr]. rewrite Hr in E.
    destruct (dropwhile_split isspace line) as [ws [El Hws]].
    exists ws, q, (r ++ w). repeat split; [|exact Hws|exact Hq].
    rewrite El at 1. unfold lstrip in E. rewrite E.
    cbn [app]. now rewrite <- app_assoc.
  - intros [ws [q [rest [-> [Hws Hq]]]]].
    assert (Hqs : isspace q = false) by (destruct Hq; subst; reflexivity).
    unfold lstrip. rewrite (dropwhile_app_stop _ _ _ _ Hws Hqs).
    destruct (rstrip_keeps (q :: lit "dark") 58%N rest eq_refl) as [r' Hr].
    change (rstrip (q :: dark ++ rest) = (q :: dark) ++ r') in Hr.
    rewrite Hr.
    destruct Hq; subst q; [left | right]; apply startswith_refl_app.
Qed.

(** ** Occurrences of [dark:] *)

Lemma contains_spec s u :
  contains s u = true <-> exists a b, s = a ++ u ++ b.
Proof.
  induction s as [|c s IH]; cbn [contains]; rewrite orb_true_iff.
  - split.
    + intros [H|H]; [|discriminate].
      apply startswith_spec in H as [t H]. now exists [], t.
    + intros [a [b H]]. left. apply startswith_spec.
      destruct a; [now exists b | discriminate].
  - rewrite IH, startswith_spec. split.
    + intros [[t H]|[a [b H]]]; [now exists [], t|].
      exists (c :: a), b. now rewrite H.
    + intros [[|x a] [b H]]; [left; now exists b|].
      right. injection H as _ H. now exists a, b.
Qed.

Lemma contains_part s a b u :
  contains s u = true -> contains (a ++ s ++ b) u = true.
Proof.
  rewrite !contains_spec. intros [x [y ->]].
  exists (a ++ x), (y ++ b). now rewrite <- !app_assoc.
Qed.

Lemma all_space_last c u :
  isspace c = true -> forallb isspace u = true ->
  exists pre w, c :: u = pre ++ [w] /\ isspace w = true.
Proof.
  intros Hc Hu.
  destruct (exists_last (l := c :: u)) as [pre [w E]]; [discriminate|].
  exists pre, w. split; [exact E|].
  assert (Hall : forallb isspace (c :: u) = true) by (simpl; now rewrite Hc).
  rewrite E, forallb_app in Hall. simpl in Hall.
  apply andb_true_iff in Hall as [_ Hw]. now rewrite andb_true_r in Hw.
Qed.

(** A run that the inline pass removes has a whitespace character right
    before its [dark:]. *)
Lemma dark_run_end_some t r :
  dark_run_end t = Some r ->
  exists pre w post, t = pre ++ w :: dark ++ post /\ isspace w = true.
Proof.
  unfold dark_run_end. destruct t as [|c t]; [discriminate|].
  destruct (isspace c) eqn:Hc; [|discriminate]. cbv zeta.
  destruct (startswith (dropwhile isspace t) dark) eqn:Hs; [|discriminate].
  intros _. apply startswith_spec in Hs as [post Hp].
  destruct (dropwhile_split isspace t) as [u [E Hu]]. rewrite Hp in E.
  destruct (all_space_last c u Hc Hu) as [pre [w [El Hw]]].
  exists pre, w, post. split; [|exact Hw].
  rewrite E. change (c :: u ++ dark ++ post) with ((c :: u) ++ dark ++ post).
  rewrite El, <- app_assoc. reflexivity.
Qed.

Lemma no_dark_no_run s :
  contains s dark = false ->
  forall u t, s = u ++ t -> re_match pat_dark t = None.
Proof.
  intros Hs u t ->. rewrite re_match_dark.
  destruct (dark_run_end t) as [r|] eqn:E; [|reflexivity].
  apply dark_run_end_some in E as [pre [w [post [-> _]]]].
  assert (C : contains (u ++ pre ++ w :: dark ++ post) dark = true).
  { apply contains_spec. exists (u ++ pre ++ [w]), post.
    rewrite <- !app_assoc. reflexivity. }
  rewrite C in Hs. discriminate.
Qed.

Lemma ws_dark_free_no_run s :
  ws_dark_free s = true ->
  forall u t, s = u ++ t -> re_match pat_dark t = None.
Proof.
  intros Hs u t ->. rewrite re_match_dark.
  destruct (dark_run_end t) as [r|] eqn:E; [|reflexivity].
  apply dark_run_end_some in E as [pre [w [post [-> Hw]]]].
  rewrite ws_dark_free_spec in Hs.
  rewrite (Hs (u ++ pre) w post) in Hw; [discriminate|].
  now rewrite <- app_assoc.
Qed.

Lemma In_join_part sep l ls :
  In l ls -> exists a b, join sep ls = a ++ l ++ b.
Proof.
  induction ls as [|x ls IH]; [contradiction|].
  rewrite join_cons. intros [->|H].
  - exists []. eexists. reflexivity.
  - destruct (IH H) as [a [b E]]. destruct ls as [|y ls]; [contradiction|].
    exists (x ++ sep ++ a), b. rewrite E, <- !app_assoc. reflexivity.
Qed.

Lemma no_dark_no_entry s l :
  contains s dark = false -> In l (split LF s) -> is_dark_entry l = false.
Proof.
  intros Hs Hl. destruct (is_dark_entry l) eqn:E; [|reflexivity].
  apply is_dark_entry_spec in E as [ws [q [rest [-> _]]]].
  apply (In_join_part [LF]) in Hl as [a [b Hj]]. rewrite join_split in Hj.
  assert (C : contains s dark = true).
  { rewrite Hj. apply contains_part. apply contains_spec.
    exists (ws ++ [q]), rest. rewrite <- !app_assoc. reflexivity. }
  rewrite C in Hs. discriminate.
Qed.

Lemma filter_all {A} (f : A -> bool) l :
  (forall x, In x l -> f x = true) -> filter f l = l.
Proof.
  induction l as [|x l IH]; intros H; [reflexivity|]. simpl.
  rewrite (H x) by now left. f_equal. apply IH. intros y Hy. apply H. now right.
Qed.

Lemma elide_no_dark s : contains s dark = false -> elide s = s.
Proof.
  intros Hs. rewrite elide_filter, filter_all; [apply join_split|].
  intros l Hl. now rewrite (no_dark_no_entry s l Hs Hl).
Qed.

(** ** The clean-up reaches a tidy text and leaves a tidy text alone *)

Lemma del_space_id x s :
  pair_free SP x s = true -> del_space_before x s = s.
Proof.
  induction s as [|c s IH]; [reflexivity|]. cbn [pair_free del_space_before].
  intros H. apply andb_true_iff in H as [Hc Hs].
  apply negb_true_iff in Hc. rewrite Hc. f_equal. now apply IH.
Qed.

Lemma del_space_head x y s :
  startswith (del_space_before x s) [y] = true ->
  startswith s [y] = true \/ startswith s [SP] = true.
Proof.
  destruct s as [|d s]; [discriminate|]. cbn [del_space_before].
  case_if_eqn E.
  - intros _. right. apply andb_true_iff in E as [E _].
    simpl. now rewrite E.
  - intros H. left. exact H.
Qed.

Lemma del_pair_free_other a b x s :
  b <> x -> pair_free a b s = true ->
  pair_free a b (del_space_before x s) = true.
Proof.
  intros Hb. induction s as [|c s IH]; [reflexivity|].
  cbn [pair_free del_space_before]. intros H.
  apply andb_true_iff in H as [Hc Hs].
  case_if; [now apply IH|].
  cbn [pair_free]. rewrite (IH Hs), andb_true_r.
  destruct (c =? a)%N; [|reflexivity]. cbn [andb negb] in *.
  destruct (startswith (del_space_before x s) [b]) eqn:E; [|reflexivity].
  apply del_space_prefix in E; [now rewrite E in Hc|].
  simpl. destruct (N.eqb_spec b x); [contradiction | reflexivity].
Qed.

Lemma del_pair_free_self x s :
  pair_free SP SP s = true ->
  pair_free SP x (del_space_before x s) = true.
Proof.
  induction s as [|c s IH]; [reflexivity|].
  cbn [pair_free del_space_before]. intros H.
  apply andb_true_iff in H as [Hc Hs].
  case_if_eqn E; [now apply IH|].
  cbn [pair_free]. rewrite (IH Hs), andb_true_r.
  destruct (c =? SP)%N; [|reflexivity]. cbn [andb negb] in *.
  destruct (startswith (del_space_before x s) [x]) eqn:F; [|reflexivity].
  apply del_space_head in F as [F|F]; [now rewrite F in E|].
  now rewrite F in Hc.
Qed.

Lemma del_pair_free_spaces s :
  pair_free SP SP (del_space_before SP s) = true.
Proof.
  induction s as [|c s IH]; [reflexivity|]. cbn [del_space_before].
  case_if_eqn E; [exact IH|].
  cbn [pair_free]. rewrite IH, andb_true_r.
  destruct (c =? SP)%N; [|reflexivity]. cbn [andb negb] in *.
  destruct (startswith (del_space_before SP s) [SP]) eqn:F; [|reflexivity].
  apply del_space_head in F as [F|F]; now rewrite F in E.
Qed.

Lemma normalize_tidy s : tidy (normalize s) = true.
Proof.
  unfold tidy, normalize.
  pose proof (del_pair_free_spaces s) as H1.
  set (s1 := del_space_before SP s) in *.
  pose proof (del_pair_free_self SQ s1 H1) as H2.
  apply (del_pair_free_other SP SP SQ) in H1; [|discriminate].
  set (s2 := del_space_before SQ s1) in *.
  pose proof (del_pair_free_self DQ s2 H1) as H3.
  apply (del_pair_free_other SP SP DQ) in H1; [|discriminate].
  apply (del_pair_free_other SP SQ DQ) in H2; [|discriminate].
  set (s3 := del_space_before DQ s2) in *.
  pose proof (del_pair_free_self RBRACK s3 H1) as H4.
  apply (del_pair_free_other SP SP RBRACK) in H1; [|discriminate].
  apply (del_pair_free_other SP SQ RBRACK) in H2; [|discriminate].
  apply (del_pair_free_other SP DQ RBRACK) in H3; [|discriminate].
  set (s4 := del_space_before RBRACK s3) in *.
  pose proof (del_pair_free_self COMMA s4 H1) as H5.
  apply (del_pair_free_other SP SP COMMA) in H1; [|discriminate].
  apply (del_pair_free_other SP SQ COMMA) in H2; [|discriminate].
  apply (del_pair_free_other SP DQ COMMA) in H3; [|discriminate].
  apply (del_pair_free_other SP RBRACK COMMA) in H4; [|discriminate].
  now rewrite H1, H2, H3, H4, H5.
Qed.

Lemma tidy_normalize s : tidy s = true -> normalize s = s.
Proof.
  unfold tidy, normalize. intros H.
  repeat (apply andb_true_iff in H as [H ?]).
  rewrite (del_space_id SP s), (del_space_id SQ s), (del_space_id DQ s),
    (del_space_id RBRACK s), (del_space_id COMMA s) by assumption.
  reflexivity.
Qed.

Lemma tidy_normalize4 s : tidy s = true -> normalize4 s = s.
Proof.
  unfold tidy, normalize4. intros H.
  repeat (apply andb_true_iff in H as [H ?]).
  rewrite (del_space_id SP s), (del_space_id SQ s), (del_space_id DQ s),
    (del_space_id COMMA s) by assumption.
  reflexivity.
Qed.

(** ** Dropping lines keeps a text free of whitespace before [dark:]
       and keeps it tidy *)

Lemma startswith_app_sep u z :
  forallb (fun x => negb (x =? z)%N) u = true ->
  forall l r, startswith (l ++ z :: r) u = startswith l u.
Proof.
  induction u as [|p u IH]; intros Hu l r; [reflexivity|].
  cbn [forallb] in Hu. apply andb_true_iff in Hu as [Hp Hu].
  destruct l as [|c l]; cbn [app startswith].
  - rewrite N.eqb_sym. apply negb_true_iff in Hp. now rewrite Hp.
  - now rewrite IH.
Qed.

Lemma startswith_join_head u l ls :
  forallb (fun x => negb (x =? LF)%N) u = true ->
  startswith (join [LF] (l :: ls)) u = startswith l u.
Proof.
  intros Hu. rewrite join_cons. destruct ls as [|l2 ls].
  - now rewrite app_nil_r.
  - cbn [app]. now apply startswith_app_sep.
Qed.

Lemma ws_dark_free_sep l r :
  ws_dark_free (l ++ LF :: r)
  = ws_dark_free l && (negb (startswith r dark) && ws_dark_free r).
Proof.
  induction l as [|c l IH]; [reflexivity|]. cbn [app ws_dark_free].
  rewrite IH, (startswith_app_sep dark LF eq_refl), andb_assoc. reflexivity.
Qed.

Lemma ws_dark_free_join ls :
  ws_dark_free (join [LF] ls) = lines_dark_free ls.
Proof.
  induction ls as [|l ls IH]; [reflexivity|].
  destruct ls as [|l2 ls].
  - cbn [join lines_dark_free forallb]. now rewrite andb_true_r.
  - change (join [LF] (l :: l2 :: ls)) with (l ++ LF :: join [LF] (l2 :: ls)).
    rewrite ws_dark_free_sep, IH, (startswith_join_head dark l2 ls eq_refl).
    cbn [lines_dark_free forallb]. unfold line_dark_free.
    now rewrite !andb_assoc.
Qed.

Lemma forallb_filter {A} (g f : A -> bool) l :
  forallb g l = true -> forallb g (filter f l) = true.
Proof.
  induction l as [|x l IH]; [reflexivity|]. simpl. intros H.
  apply andb_true_iff in H as [Hx Hl].
  destruct (f x); simpl; [rewrite Hx|]; now apply IH.
Qed.

Lemma lines_dark_free_filter f ls :
  lines_dark_free ls = true -> lines_dark_free (filter f ls) = true.
Proof.
  destruct ls as [|l rest]; [reflexivity|]. cbn [lines_dark_free filter].
  intros H. apply andb_true_iff in H as [Hl Hr].
  apply (forallb_filter _ f) in Hr.
  destruct (f l); cbn [lines_dark_free]; [now rewrite Hl, Hr|].
  destruct (filter f rest) as [|x xs]; [reflexivity|].
  cbn [lines_dark_free forallb] in *.
  apply andb_true_iff in Hr as [Hx Hxs]. unfold line_dark_free in Hx.
  apply andb_true_iff in Hx as [_ Hx]. now rewrite Hx, Hxs.
Qed.

Lemma elide_dark_free t :
  ws_dark_free t = true -> ws_dark_free (elide t) = true.
Proof.
  intros H. rewrite elide_filter, ws_dark_free_join.
  apply lines_dark_free_filter.
  now rewrite <- ws_dark_free_join, join_split.
Qed.

Lemma pair_free_sep a b l r :
  a <> LF -> b <> LF ->
  pair_free a b (l ++ LF :: r) = pair_free a b l && pair_free a b r.
Proof.
  intros Ha Hb. induction l as [|c l IH]; cbn [app pair_free].
  - destruct (N.eqb_spec LF a) as [E|_]; [now contradiction Ha | reflexivity].
  - rewrite IH, andb_assoc. f_equal. f_equal. f_equal. f_equal.
    apply startswith_app_sep. simpl.
    destruct (N.eqb_spec b LF); [contradiction | reflexivity].
Qed.

Lemma pair_free_join a b ls :
  a <> LF -> b <> LF ->
  pair_free a b (join [LF] ls) = forallb (pair_free a b) ls.
Proof.
  intros Ha Hb. induction ls as [|l ls IH]; [reflexivity|].
  destruct ls as [|l2 ls].
  - cbn [join forallb]. now rewrite andb_true_r.
  - change (join [LF] (l :: l2 :: ls)) with (l ++ LF :: join [LF] (l2 :: ls)).
    rewrite pair_free_sep, IH by assumption. reflexivity.
Qed.

Lemma elide_pair_free a b t :
  a <> LF -> b <> LF ->
  pair_free a b t = true -> pair_free a b (elide t) = true.
Proof.
  intros Ha Hb H. rewrite elide_filter, pair_free_join by assumption.
  apply forallb_filter.
  now rewrite <- pair_free_join, join_split by assumption.
Qed.

Lemma elide_tidy t : tidy t = true -> tidy (elide t) = true.
Proof.
  unfold tidy. intros H. repeat (apply andb_true_iff in H as [H ?]).
  rewrite !elide_pair_free by (assumption || discriminate). reflexivity.
Qed.

(** ** Only deletions *)

Lemma subseq_refl s : subseq s s.
Proof. induction s; constructor; assumption. Qed.

Lemma subseq_nil_l s : subseq [] s.
Proof. induction s; constructor; assumption. Qed.

Lemma subseq_app o1 s1 o2 s2 :
  subseq o1 s1 -> subseq o2 s2 -> subseq (o1 ++ o2) (s1 ++ s2).
Proof. induction 1; intros H2; simpl; [exact H2 | |]; constructor; auto. Qed.

Lemma subseq_skip pre o s : subseq o s -> subseq o (pre ++ s).
Proof. intros H. apply (subseq_app [] pre o s); [apply subseq_nil_l | exact H]. Qed.

Lemma subseq_trans a b c : subseq a b -> subseq b c -> subseq a c.
Proof.
  intros Hab Hbc. revert a Hab.
  induction Hbc as [|x b c Hbc IH|x b c Hbc IH]; intros a Hab.
  - exact Hab.
  - inversion Hab; subst; constructor; auto.
  - constructor. auto.
Qed.

Lemma subseq_count f o s :
  subseq o s -> length (filter f o) <= length (filter f s).
Proof.
  induction 1 as [|c o s H IH|c o s H IH]; simpl; [lia| |];
    destruct (f c); simpl; lia.
Qed.

Lemma subseq_length o s : subseq o s -> length o <= length s.
Proof. induction 1; simpl; lia. Qed.

Lemma Sub_subseq p s o : Sub p [] s o -> subseq o s.
Proof.
  induction 1 as [|c s o M HS IH|s rest o M HS IH].
  - constructor.
  - now constructor.
  - destruct (re_match_suffix p s rest M) as [m ->].
    now apply subseq_skip.
Qed.

Lemma del_space_subseq x s : subseq (del_space_before x s) s.
Proof.
  induction s as [|c s IH]; [constructor|]. cbn [del_space_before].
  case_if; now constructor.
Qed.

Lemma normalize_subseq s : subseq (normalize s) s.
Proof.
  unfold normalize.
  repeat (eapply subseq_trans; [apply del_space_subseq|]).
  apply subseq_refl.
Qed.

Lemma normalize4_subseq s : subseq (normalize4 s) s.
Proof.
  unfold normalize4.
  repeat (eapply subseq_trans; [apply del_space_subseq|]).
  apply subseq_refl.
Qed.

Lemma join_filter_subseq sep (f : str -> bool) ls :
  subseq (join sep (filter f ls)) (join sep ls).
Proof.
  induction ls as [|l ls IH]; [constructor|].
  rewrite (join_cons sep l ls). cbn [filter]. destruct (f l).
  - rewrite join_cons. apply subseq_app; [apply subseq_refl|].
    destruct ls as [|l2 ls]; [constructor|].
    destruct (filter f (l2 :: ls)) as [|x xs]; [apply subseq_nil_l|].
    apply subseq_app; [apply subseq_refl | exact IH].
  - apply subseq_skip. destruct ls as [|l2 ls]; [exact IH|].
    now apply subseq_skip.
Qed.

Lemma elide_subseq s : subseq (elide s) s.
Proof.
  rewrite elide_filter. rewrite <- (join_split LF s) at 2.
  apply join_filter_subseq.
Qed.

(** ** The inline pass removes a run as one unit *)

Lemma ends_clear_spec s :
  ends_clear s = true <-> forall s' c, s = s' ++ [c] -> isspace c = false.
Proof.
  unfold ends_clear. split.
  - intros H s' c ->. rewrite rev_app_distr in H. simpl in H.
    now apply negb_true_iff.
  - intros H. destruct (rev s) as [|c r] eqn:E; [reflexivity|].
    apply negb_true_iff, (H (rev r)).
    now rewrite <- (rev_involutive s), E.
Qed.

Lemma ends_clear_tail c s : ends_clear (c :: s) = true -> ends_clear s = true.
Proof.
  unfold ends_clear. simpl. destruct (rev s) as [|x r]; [reflexivity|].
  intros H; exact H.
Qed.

Lemma ends_clear_suffix m r : ends_clear (m ++ r) = true -> ends_clear r = true.
Proof.
  induction m as [|c m IH]; intros H; [exact H|].
  apply IH. eapply ends_clear_tail. exact H.
Qed.

Lemma ends_clear_dropwhile s :
  ends_clear s = true -> s <> [] -> dropwhile isspace s <> [].
Proof.
  induction s as [|c s IH]; intros H Hn; [contradiction|]. cbn [dropwhile].
  destruct (isspace c) eqn:Hc; [|discriminate].
  destruct s as [|d s].
  - unfold ends_clear in H. simpl in H. rewrite Hc in H. discriminate.
  - apply IH; [eapply ends_clear_tail; exact H | discriminate].
Qed.

Lemma dropwhile_app_nonempty f s X :
  dropwhile f s <> [] -> dropwhile f (s ++ X) = dropwhile f s ++ X.
Proof.
  induction s as [|c s IH]; intros H; [contradiction|]. simpl in *.
  destruct (f c); [now apply IH | reflexivity].
Qed.

Lemma dark_has_no_space w :
  isspace w = true -> forallb (fun x => negb (x =? w)%N) dark = true.
Proof.
  intros Hw. unfold dark. cbn [lit map list_ascii_of_string forallb].
  repeat match goal with
         | |- context [(?d =? w)%N] =>
             destruct (N.eqb_spec d w) as [<-|_]; [discriminate Hw|]
         end.
  reflexivity.
Qed.

Lemma space_not_token w : isspace w = true -> dark_token_char w = false.
Proof. intros Hw. unfold dark_token_char. now rewrite Hw. Qed.

Lemma dark_run_end_app s w X :
  s <> [] -> ends_clear s = true -> isspace w = true ->
  dark_run_end (s ++ w :: X)
  = option_map (fun r => r ++ w :: X) (dark_run_end s).
Proof.
  intros Hn Hs Hw. destruct s as [|c s]; [contradiction|].
  unfold dark_run_end. cbn [app].
  destruct (isspace c) eqn:Hc; [|reflexivity]. cbv zeta.
  assert (Hs' : ends_clear s = true) by (eapply ends_clear_tail; exact Hs).
  assert (Hn' : s <> []).
  { intros ->. unfold ends_clear in Hs. simpl in Hs.
    rewrite Hc in Hs. discriminate. }
  rewrite (dropwhile_app_nonempty _ _ _ (ends_clear_dropwhile s Hs' Hn')).
  rewrite (startswith_app_sep dark w (dark_has_no_space w Hw)).
  destruct (startswith (dropwhile isspace s) dark) eqn:E; [|reflexivity].
  apply startswith_spec in E as [t2 ->]. cbn [option_map]. f_equal.
  change (skipn 5 ((dark ++ t2) ++ w :: X)) with (t2 ++ w :: X).
  change (skipn 5 (dark ++ t2)) with t2.
  apply dropwhile_app_keep. now apply space_not_token.
Qed.

Lemma Sub_dark_app pre o w X oX :
  Sub pat_dark [] pre o -> ends_clear pre = true -> isspace w = true ->
  Sub pat_dark [] (w :: X) oX ->
  Sub pat_dark [] (pre ++ w :: X) (o ++ oX).
Proof.
  intros HS Hw. revert Hw.
  induction HS as [|c s o M HS IH|s rest o M HS IH]; intros Hc Hw HX.
  - exact HX.
  - cbn [app]. constructor.
    + change (c :: s ++ w :: X) with ((c :: s) ++ w :: X).
      rewrite re_match_dark in *.
      rewrite dark_run_end_app, M by (assumption || discriminate).
      reflexivity.
    + apply IH; [eapply ends_clear_tail; exact Hc | assumption | assumption].
  - destruct (re_match_suffix _ _ _ M) as [m ->].
    apply (Sub_hit _ [] ((m ++ rest) ++ w :: X) (rest ++ w :: X)).
    + rewrite re_match_dark in *.
      rewrite dark_run_end_app, M; [reflexivity | | assumption | assumption].
      intros E. rewrite E in M. discriminate.
    + apply IH; [eapply ends_clear_suffix; exact Hc | assumption | assumption].
Qed.

Lemma dark_run_end_run w ws tok post :
  forallb isspace (w :: ws) = true ->
  forallb dark_token_char tok = true ->
  starts_clear post = true ->
  dark_run_end ((w :: ws) ++ dark ++ tok ++ post) = Some post.
Proof.
  cbn [forallb]. intros Hws Htok Hpost.
  apply andb_true_iff in Hws as [Hw Hws].
  unfold dark_run_end. cbn [app]. rewrite Hw. cbv zeta.
  change (ws ++ dark ++ tok ++ post)
    with (ws ++ 100%N :: lit "ark:" ++ tok ++ post).
  rewrite (dropwhile_app_stop isspace ws 100%N _ Hws eq_refl).
  change (100%N :: lit "ark:" ++ tok ++ post) with (dark ++ tok ++ post).
  rewrite startswith_refl_app.
  change (skipn 5 (dark ++ tok ++ post)) with (tok ++ post). f_equal.
  destruct post as [|x post].
  - rewrite app_nil_r. now apply dropwhile_all.
  - apply dropwhile_app_stop; [exact Htok|].
    simpl in Hpost. now apply negb_true_iff in Hpost.
Qed.

(** ** The scripts, pass by pass *)

Lemma cleanup_passes_normalize c : cleanup_passes c = Some (normalize c).
Proof.
  unfold cleanup_passes, pat_sp_squote, pat_sp_dquote, pat_sp_rbrack,
    pat_sp_comma.
  rewrite sub_spaces, !sub_pair by discriminate. reflexivity.
Qed.

Lemma classes_result s :
  exists o, Sub pat_dark [] (elide s) o
            /\ Classes.remove_dark_classes s = Some (normalize o).
Proof.
  destruct (sub_dark_ex (elide s)) as [o [E HS]]. exists o. split; [exact HS|].
  now rewrite classes_passes, E.
Qed.

Lemma admin_pages_result s :
  exists o, Sub pat_dark [] (elide s) o
            /\ AdminPages.remove_dark_classes s = Some o.
Proof.
  destruct (sub_dark_ex (elide s)) as [o [E HS]]. exists o. split; [exact HS|].
  now rewrite admin_pages_passes, E.
Qed.

Lemma components_result s :
  exists o, Sub pat_dark [] s o
            /\ Components.remove_dark_classes s = Some (normalize4 o).
Proof.
  destruct (sub_dark_ex s) as [o [E HS]]. exists o. split; [exact HS|].
  now rewrite components_passes, E.
Qed.

Lemma classes_dark_free s :
  exists out, Classes.remove_dark_classes s = Some out
              /\ ws_dark_free out = true /\ tidy out = true.
Proof.
  destruct (classes_result s) as [o [HS E]]. exists (normalize o).
  repeat split; [exact E | | apply normalize_tidy].
  apply normalize_dark_free. eapply Sub_dark_free; eauto.
Qed.

(** On a text with no whitespace before [dark:] and nothing to tidy,
    only the line loop of remove-dark-classes.py can still act. *)
Lemma classes_on_result t :
  ws_dark_free t = true -> tidy t = true ->
  Classes.remove_dark_classes t = Some (elide t).
Proof.
  intros Hd Ht. rewrite classes_passes.
  rewrite (Sub_sub pat_dark [] eq_refl (elide t) (elide t)).
  - cbn [option_map]. f_equal. apply tidy_normalize. now apply elide_tidy.
  - apply Sub_no_match. apply ws_dark_free_no_run. now apply elide_dark_free.
Qed.

(** ** Properties of the transformation *)

(** C5.  The line loop drops exactly the lines whose trimmed content
    starts with a single or a double quote followed by [dark:]: such a
    line is whitespace, the quote, [dark:] and anything; the loop keeps
    the other lines, in order; the first pass of both scripts is the
    join of the lines kept; and the line [  'dark:bg-gray-800',] is
    dropped wherever it stands. *)
Theorem line_elision :
  (forall line,
      is_dark_entry line = true <->
      exists ws q rest,
        line = ws ++ q :: lit "dark:" ++ rest
        /\ forallb isspace ws = true /\ (q = SQ \/ q = DQ))
  /\ (forall lines,
         line_loop lines []
         = filter (fun line => negb (is_dark_entry line)) lines)
  /\ (forall content,
         elide content
         = join [LF] (filter (fun line => negb (is_dark_entry line))
                        (split LF content))
         /\ Classes.remove_dark_classes content
            = (c <- sub pat_dark [] (elide content) ;; cleanup_passes c)
         /\ AdminPages.remove_dark_classes content
            = sub pat_dark [] (elide content))
  /\ (forall before after,
         line_loop (before ++ lit "  'dark:bg-gray-800'," :: after) []
         = line_loop (before ++ after) []).
Proof.
  split; [exact is_dark_entry_spec|]. split; [|split].
  - intros lines. now rewrite line_loop_filter.
  - intros content. split; [apply elide_filter|]. split.
    + rewrite classes_passes.
      destruct (sub pat_dark [] (elide content)) as [c|]; [|reflexivity].
      now rewrite cleanup_passes_normalize.
    + apply admin_pages_passes.
  - intros before after. rewrite !line_loop_filter. cbn [app].
    rewrite !filter_app. cbn [filter].
    replace (is_dark_entry (lit "  'dark:bg-gray-800',")) with true
      by (symmetry; vm_compute; reflexivity).
    reflexivity.
Qed.

(** C6.  The inline pass removes a run of whitespace, [dark:] and token
    characters as one unit: with a text [pre] that does not end in
    whitespace before the run and a text [post] that does not start
    with a token character behind it, the result is the result for
    [pre] followed by the result for [post]; and no run is left, as
    the result has no whitespace before a [dark:].  So
    [dark:hover:text-red-500] goes as a whole, and the class attribute
    of the example loses its [dark:text-black]. *)
Theorem inline_removal :
  (forall pre w ws tok post,
      ends_clear pre = true ->
      forallb isspace (w :: ws) = true ->
      forallb dark_token_char tok = true ->
      starts_clear post = true ->
      exists o1 o2,
        sub pat_dark [] pre = Some o1
        /\ sub pat_dark [] post = Some o2
        /\ sub pat_dark [] (pre ++ (w :: ws) ++ lit "dark:" ++ tok ++ post)
           = Some (o1 ++ o2))
  /\ (forall s, exists o, sub pat_dark [] s = Some o /\ ws_dark_free o = true)
  /\ sub pat_dark [] (lit "a dark:hover:text-red-500 b") = Some (lit "a b")
  /\ Classes.remove_dark_classes
       (lit "className=" ++ DQ :: lit "text-white dark:text-black px-2" ++ [DQ])
     = Some (lit "className=" ++ DQ :: lit "text-white px-2" ++ [DQ]).
Proof.
  split; [|split; [|split; vm_compute; reflexivity]].
  2:{ intros s. destruct (sub_dark_ex s) as [o [E HS]]. exists o.
      split; [exact E | eapply Sub_dark_free; exact HS]. }
  intros pre w ws tok post Hpre Hws Htok Hpost.
  destruct (sub_dark_ex pre) as [o1 [E1 S1]].
  destruct (sub_dark_ex post) as [o2 [E2 S2]].
  exists o1, o2. repeat split; [exact E1 | exact E2 |].
  apply Sub_sub; [reflexivity|]. cbn [app].
  assert (Hw : isspace w = true)
    by (cbn [forallb] in Hws; now apply andb_true_iff in Hws as [Hw _]).
  apply Sub_dark_app; [exact S1 | exact Hpre | exact Hw |].
  apply (Sub_hit _ [] _ post); [|exact S2].
  rewrite re_match_dark.
  now apply (dark_run_end_run w ws tok post).
Qed.

(** The hypotheses of C6 at the example of the specification. *)
Lemma inline_removal_witness :
  exists o1 o2,
    sub pat_dark [] (lit "className=" ++ DQ :: lit "text-white") = Some o1
    /\ sub pat_dark [] (lit " px-2" ++ [DQ]) = Some o2
    /\ sub pat_dark []
         ((lit "className=" ++ DQ :: lit "text-white")
            ++ [SP] ++ lit "dark:" ++ lit "text-black"
            ++ lit " px-2" ++ [DQ])
       = Some (o1 ++ o2).
Proof.
  apply (proj1 inline_removal
           (lit "className=" ++ DQ :: lit "text-white") SP []
           (lit "text-black") (lit " px-2" ++ [DQ]));
    reflexivity.
Defined.

(** C7.  [remove_dark_classes] returns a text on every input: the
    scanning loops of its six substitutions all finish (on the empty
    text with the empty text). *)
Theorem remove_dark_classes_total :
  forall content, exists out, Classes.remove_dark_classes content = Some out.
Proof.
  intros content. destruct (classes_result content) as [o [_ E]].
  now exists (normalize o).
Qed.

(** C8.  remove-dark-classes.py is remove-dark-admin-pages.py followed
    by the five clean-up substitutions, and these are the normalization
    of the specification: delete the extra spaces of a run, then the
    space before a single quote, a double quote, a closing bracket and
    a comma. *)
Theorem classes_refines_admin_pages :
  forall s,
    Classes.remove_dark_classes s
    = (c <- AdminPages.remove_dark_classes s ;; cleanup_passes c)
    /\ Classes.remove_dark_classes s
       = option_map normalize (AdminPages.remove_dark_classes s)
    /\ (forall c, cleanup_passes c = Some (normalize c)).
Proof.
  intros s. rewrite classes_passes, admin_pages_passes.
  split; [|split; [reflexivity | apply cleanup_passes_normalize]].
  destruct (sub pat_dark [] (elide s)) as [c|]; [|reflexivity].
  now rewrite cleanup_passes_normalize.
Qed.

(** C9.  The output of remove-dark-classes.py has no whitespace
    character immediately followed by [dark:]. *)
Theorem no_space_before_dark :
  forall s,
  exists out,
    Classes.remove_dark_classes s = Some out
    /\ ws_dark_free out = true
    /\ forall pre c post,
         out = pre ++ c :: lit "dark:" ++ post -> isspace c = false.
Proof.
  intros s. destruct (classes_dark_free s) as [out [E [Hd _]]].
  exists out. repeat split; [exact E | exact Hd |].
  now apply ws_dark_free_spec.
Qed.

(** C10.  In each of the three scripts the output is the input with
    characters deleted; it is no longer than the input and has no more
    newline characters. *)
Theorem output_no_longer :
  forall s,
    (exists out, Classes.remove_dark_classes s = Some out
                 /\ subseq out s
                 /\ length out <= length s /\ newlines out <= newlines s)
    /\ (exists out, AdminPages.remove_dark_classes s = Some out
                    /\ subseq out s
                    /\ length out <= length s /\ newlines out <= newlines s)
    /\ (exists out, Components.remove_dark_classes s = Some out
                    /\ subseq out s
                    /\ length out <= length s /\ newlines out <= newlines s).
Proof.
  intros s.
  assert (K : forall out, subseq out s ->
                subseq out s /\ length out <= length s
                /\ newlines out <= newlines s).
  { intros out H. split; [exact H|]. split.
    - now apply subseq_length.
    - now apply subseq_count. }
  split; [|split].
  - destruct (classes_result s) as [o [HS E]]. exists (normalize o).
    split; [exact E|]. apply K.
    eapply subseq_trans; [apply normalize_subseq|].
    eapply subseq_trans; [eapply Sub_subseq; exact HS | apply elide_subseq].
  - destruct (admin_pages_result s) as [o [HS E]]. exists o.
    split; [exact E|]. apply K.
    eapply subseq_trans; [eapply Sub_subseq; exact HS | apply elide_subseq].
  - destruct (components_result s) as [o [HS E]]. exists (normalize4 o).
    split; [exact E|]. apply K.
    eapply subseq_trans; [apply normalize4_subseq|].
    eapply Sub_subseq; exact HS.
Qed.

(** ** Where the code differs from the specification *)

(** C1, as stated, fails: a [dark:] token at the start of the text, or
    right behind a quote inside a line, is matched by neither pass and
    stays. *)
Lemma dark_token_survives :
  Classes.remove_dark_classes (lit "dark:x") = Some (lit "dark:x")
  /\ dark_token_free (lit "dark:x") = false
  /\ Classes.remove_dark_classes
       (lit "className=" ++ DQ :: lit "dark:bg-black" ++ [DQ])
     = Some (lit "className=" ++ DQ :: lit "dark:bg-black" ++ [DQ])
  /\ dark_token_free (lit "className=" ++ DQ :: lit "dark:bg-black" ++ [DQ])
     = false.
Proof. repeat split; vm_compute; reflexivity. Qed.

(** C1, amended.  In the output every [dark:] stands at the very start
    of the text or right behind a character that is not whitespace. *)
Theorem dark_only_behind_non_space :
  forall s,
  exists out,
    Classes.remove_dark_classes s = Some out
    /\ forall pre post,
         out = pre ++ lit "dark:" ++ post ->
         pre = [] \/ exists pre' c, pre = pre' ++ [c] /\ isspace c = false.
Proof.
  intros s. destruct (classes_dark_free s) as [out [E [Hd _]]].
  exists out. split; [exact E|]. intros pre post Ho.
  destruct pre as [|x pre]; [now left|]. right.
  destruct (exists_last (l := x :: pre)) as [pre' [c Ep]]; [discriminate|].
  exists pre', c. split; [exact Ep|].
  rewrite ws_dark_free_spec in Hd. apply (Hd pre' c post).
  rewrite Ho, Ep, <- app_assoc. reflexivity.
Qed.

(** C2, as stated, fails: the clean-up acts on a text without any
    [dark:]. *)
Lemma clean_input_changed :
  contains (lit "a  b") (lit "dark:") = false
  /\ Classes.remove_dark_classes (lit "a  b") = Some (lit "a b")
  /\ lit "a b" <> lit "a  b".
Proof.
  split; [|split]; [vm_compute; reflexivity .. | discriminate].
Qed.

(** C2, amended.  On a text without [dark:] the line loop and the
    inline pass change nothing: remove-dark-classes.py returns the
    normalization of the text, which is the text itself when it is
    tidy, and remove-dark-admin-pages.py returns the text. *)
Theorem clean_input :
  forall s,
    contains s (lit "dark:") = false ->
    Classes.remove_dark_classes s = Some (normalize s)
    /\ (tidy s = true -> Classes.remove_dark_classes s = Some s)
    /\ AdminPages.remove_dark_classes s = Some s.
Proof.
  intros s Hs.
  assert (E : sub pat_dark [] (elide s) = Some s).
  { rewrite (elide_no_dark s Hs). apply Sub_sub; [reflexivity|].
    apply Sub_no_match. now apply no_dark_no_run. }
  rewrite classes_passes, admin_pages_passes, E. cbn [option_map].
  split; [reflexivity|]. split; [|reflexivity].
  intros Ht. now rewrite tidy_normalize.
Qed.

Lemma clean_input_witness :
  contains (lit "<p class='a b'>") (lit "dark:") = false
  /\ Classes.remove_dark_classes (lit "<p class='a b'>")
     = Some (normalize (lit "<p class='a b'>"))
  /\ (tidy (lit "<p class='a b'>") = true ->
      Classes.remove_dark_classes (lit "<p class='a b'>")
      = Some (lit "<p class='a b'>"))
  /\ AdminPages.remove_dark_classes (lit "<p class='a b'>")
     = Some (lit "<p class='a b'>").
Proof.
  split; [reflexivity|].
  apply (clean_input (lit "<p class='a b'>")). reflexivity.
Defined.

(** C3, as stated, fails: the inline pass can uncover a line that the
    line loop of a second run drops. *)
Lemma second_run_differs :
  Classes.remove_dark_classes (lit " dark:a'dark:b'") = Some (lit "'dark:b'")
  /\ Classes.remove_dark_classes (lit "'dark:b'") = Some []
  /\ lit "'dark:b'" <> [].
Proof.
  split; [|split]; [vm_compute; reflexivity .. | discriminate].
Qed.

(** C3, amended.  A second run of remove-dark-classes.py on its own
    output [t] only drops the lines of [t] that the line loop drops;
    where [t] has no such line the second run returns [t]. *)
Theorem second_run :
  forall s,
  exists t,
    Classes.remove_dark_classes s = Some t
    /\ Classes.remove_dark_classes t
       = Some (join [LF] (filter (fun line => negb (is_dark_entry line))
                            (split LF t)))
    /\ (forallb (fun line => negb (is_dark_entry line)) (split LF t) = true ->
        Classes.remove_dark_classes t = Some t).
Proof.
  intros s. destruct (classes_dark_free s) as [t [E [Hd Ht]]].
  exists t. split; [exact E|].
  rewrite (classes_on_result t Hd Ht), elide_filter. split; [reflexivity|].
  intros Hall. rewrite filter_all, join_split; [reflexivity|].
  now apply forallb_forall.
Qed.

(** C4, as stated, fails: the output on the example is not
    [['a', , 'c']]. *)
Lemma cleanup_example_differs :
  Classes.remove_dark_classes (lit "['a', 'dark:b' , 'c']")
  = Some (lit "['a','dark:b','c']")
  /\ lit "['a','dark:b','c']" <> lit "['a', , 'c']".
Proof. split; [vm_compute; reflexivity | discriminate]. Qed.

(** C4, amended.  On [['a', 'dark:b' , 'c']] the line loop and the
    inline pass change nothing (the [dark:] stands behind a quote, not
    behind whitespace), and the clean-up deletes the space before each
    single quote and before the comma: the output is
    [['a','dark:b','c']]. *)
Theorem cleanup_example :
  elide (lit "['a', 'dark:b' , 'c']") = lit "['a', 'dark:b' , 'c']"
  /\ sub pat_dark [] (lit "['a', 'dark:b' , 'c']")
     = Some (lit "['a', 'dark:b' , 'c']")
  /\ cleanup_passes (lit "['a', 'dark:b' , 'c']")
     = Some (lit "['a','dark:b','c']")
  /\ Classes.remove_dark_classes (lit "['a', 'dark:b' , 'c']")
     = Some (lit "['a','dark:b','c']").
Proof. repeat split; vm_compute; reflexivity. Qed.

(** ** Further properties of the passes *)

Lemma subseq_same_length a b : subseq a b -> length b <= length a -> a = b.
Proof.
  induction 1 as [|c o s H IH|c o s H IH]; simpl; intros L.
  - reflexivity.
  - f_equal. apply IH. lia.
  - apply subseq_length in H. lia.
Qed.

Lemma forallb_false_ex {A} (f : A -> bool) l :
  forallb f l = false -> exists x, In x l /\ f x = false.
Proof.
  induction l as [|x l IH]; [discriminate|]. simpl.
  destruct (f x) eqn:E; [|exists x; now split; [left|]].
  intros H. destruct (IH H) as [y [Hy Fy]]. exists y. split; [now right | exact Fy].
Qed.

Lemma join_filter_shorter sep (f : str -> bool) ls :
  (exists l, In l ls /\ f l = false /\ l <> []) ->
  length (join [sep] (filter f ls)) < length (join [sep] ls).
Proof.
  induction ls as [|x r IH]; intros [l [Hin [Hf Hl]]]; [contradiction|].
  pose proof (subseq_length _ _ (join_filter_subseq [sep] f r)) as Hle.
  rewrite (join_cons [sep] x r). cbn [filter]. destruct (f x) eqn:Fx.
  - destruct Hin as [->|Hin]; [congruence|].
    assert (Hlt : length (join [sep] (filter f r)) < length (join [sep] r))
      by (apply IH; now exists l).
    rewrite join_cons. destruct r as [|y r]; [contradiction|].
    destruct (filter f (y :: r)); rewrite !length_app; simpl in *; lia.
  - destruct r as [|y r].
    + destruct Hin as [->|[]]. destruct l; [contradiction|].
      simpl. rewrite app_nil_r. simpl. lia.
    + rewrite !length_app. simpl in *. lia.
Qed.

(** The line loop changes a text exactly when one of its lines is of
    the kind it drops. *)
Lemma elide_fixed s :
  elide s = s <->
  forallb (fun line => negb (is_dark_entry line)) (split LF s) = true.
Proof.
  split.
  - intros E.
    destruct (forallb _ (split LF s)) eqn:F; [reflexivity|]. exfalso.
    apply forallb_false_ex in F as [l [Hl Fl]].
    assert (L : length (elide s) < length s).
    { rewrite elide_filter. rewrite <- (join_split LF s) at 2.
      apply join_filter_shorter. exists l. repeat split; [exact Hl | exact Fl|].
      intros ->. discriminate Fl. }
    rewrite E in L. lia.
  - intros F. rewrite elide_filter, filter_all; [apply join_split|].
    now apply forallb_forall.
Qed.

Lemma split_single sep l :
  forallb (fun c => negb (c =? sep)%N) l = true -> split sep l = [l].
Proof.
  induction l as [|c l IH]; [reflexivity|]. cbn [forallb split]. intros H.
  apply andb_true_iff in H as [Hc Hl]. apply negb_true_iff in Hc.
  now rewrite Hc, (IH Hl).
Qed.

Lemma split_app_sep sep l r :
  forallb (fun c => negb (c =? sep)%N) l = true ->
  split sep (l ++ sep :: r) = l :: split sep r.
Proof.
  induction l as [|c l IH]; cbn [forallb app split]; intros H.
  - now rewrite N.eqb_refl.
  - apply andb_true_iff in H as [Hc Hl]. apply negb_true_iff in Hc.
    now rewrite Hc, (IH Hl).
Qed.

Lemma split_no_sep sep s :
  Forall (fun l => forallb (fun c => negb (c =? sep)%N) l = true)
         (split sep s).
Proof.
  induction s as [|c s IH]; cbn [split]; [repeat constructor|].
  destruct (c =? sep)%N eqn:E; [now constructor|].
  destruct (split sep s) as [|l ls]; [repeat constructor; simpl; now rewrite E|].
  inversion IH as [|? ? Hl Hls]; subst. constructor; [|exact Hls].
  simpl. now rewrite E, Hl.
Qed.

Lemma split_join sep ls :
  ls <> [] ->
  Forall (fun l => forallb (fun c => negb (c =? sep)%N) l = true) ls ->
  split sep (join [sep] ls) = ls.
Proof.
  induction ls as [|l ls IH]; intros Hn H; [contradiction|].
  inversion H as [|? ? Hl Hls]; subst. destruct ls as [|l2 ls].
  - now apply split_single.
  - change (join [sep] (l :: l2 :: ls)) with (l ++ sep :: join [sep] (l2 :: ls)).
    rewrite (split_app_sep _ _ _ Hl), IH; [reflexivity | discriminate | exact Hls].
Qed.

Lemma Forall_filter {A} (P : A -> Prop) (f : A -> bool) l :
  Forall P l -> Forall P (filter f l).
Proof.
  induction 1 as [|x l Hx Hl IH]; simpl; [constructor|].
  destruct (f x); [now constructor | exact IH].
Qed.

Lemma filter_filter {A} (f : A -> bool) l : filter f (filter f l) = filter f l.
Proof.
  induction l as [|x l IH]; [reflexivity|]. simpl.
  destruct (f x) eqn:E; simpl; [now rewrite E, IH | exact IH].
Qed.

Lemma elide_lines s :
  split LF (elide s) = [[]]
  \/ split LF (elide s)
     = filter (fun line => negb (is_dark_entry line)) (split LF s).
Proof.
  rewrite elide_filter.
  destruct (filter _ (split LF s)) as [|l ls] eqn:E; [now left|]. right.
  apply split_join; [discriminate|]. rewrite <- E.
  apply Forall_filter, split_no_sep.
Qed.

Lemma normalize4_dark_free s :
  ws_dark_free s = true -> ws_dark_free (normalize4 s) = true.
Proof.
  intros H. unfold normalize4.
  repeat (apply del_space_dark_free; [reflexivity|]). exact H.
Qed.

Lemma normalize4_tidy4 s : tidy4 (normalize4 s) = true.
Proof.
  unfold tidy4, normalize4.
  pose proof (del_pair_free_spaces s) as H1.
  set (s1 := del_space_before SP s) in *.
  pose proof (del_pair_free_self SQ s1 H1) as H2.
  apply (del_pair_free_other SP SP SQ) in H1; [|discriminate].
  set (s2 := del_space_before SQ s1) in *.
  pose proof (del_pair_free_self DQ s2 H1) as H3.
  apply (del_pair_free_other SP SP DQ) in H1; [|discriminate].
  apply (del_pair_free_other SP SQ DQ) in H2; [|discriminate].
  set (s3 := del_space_before DQ s2) in *.
  pose proof (del_pair_free_self COMMA s3 H1) as H5.
  apply (del_pair_free_other SP SP COMMA) in H1; [|discriminate].
  apply (del_pair_free_other SP SQ COMMA) in H2; [|discriminate].
  apply (del_pair_free_other SP DQ COMMA) in H3; [|discriminate].
  now rewrite H1, H2, H3, H5.
Qed.

Lemma tidy4_normalize4 s : tidy4 s = true -> normalize4 s = s.
Proof.
  unfold tidy4, normalize4. intros H.
  repeat (apply andb_true_iff in H as [H ?]).
  rewrite (del_space_id SP s), (del_space_id SQ s), (del_space_id DQ s),
    (del_space_id COMMA s) by assumption.
  reflexivity.
Qed.

Lemma sub_dark_fixed s :
  sub pat_dark [] s = Some s <-> ws_dark_free s = true.
Proof.
  split.
  - intros E. apply sub_iff_Sub in E; [|reflexivity].
    eapply Sub_dark_free; exact E.
  - intros H. apply Sub_sub; [reflexivity|].
    apply Sub_no_match. now apply ws_dark_free_no_run.
Qed.

Lemma components_dark_free s :
  exists out, Components.remove_dark_classes s = Some out
              /\ ws_dark_free out = true /\ tidy4 out = true.
Proof.
  destruct (components_result s) as [o [HS E]]. exists (normalize4 o).
  repeat split; [exact E | | apply normalize4_tidy4].
  apply normalize4_dark_free. eapply Sub_dark_free; eauto.
Qed.

Lemma components_on_fixed t :
  ws_dark_free t = true -> tidy4 t = true ->
  Components.remove_dark_classes t = Some t.
Proof.
  intros Hd Ht. rewrite components_passes.
  rewrite (proj2 (sub_dark_fixed t) Hd). cbn [option_map].
  now rewrite tidy4_normalize4.
Qed.

(** ** Files *)













(** ** [process_file] and the [main] of remove-dark-admin-pages.py *)





(** ** The verification *)

Section VerificationFacts.

Variable isalnum : char -> bool.








End VerificationFacts.

(** ** The first loop of the other two [main]s *)









Lemma pair_free_spec a b s :
  pair_free a b s = true ->
  forall pre post, s <> pre ++ a :: b :: post.
Proof.
  intros H pre. revert s H. induction pre as [|x pre IH]; intros s H post E.
  - subst s. cbn in H. rewrite !N.eqb_refl in H. discriminate.
  - subst s. cbn [app pair_free] in H. apply andb_true_iff in H as [_ H].
    now apply (IH _ H post).
Qed.

(** ** More on the transformation *)

(** X1.  remove_dark_classes of remove-dark-from-components.py is
    idempotent: run on its own output it returns that output. *)
Theorem components_idempotent :
  forall s,
  exists t,
    Components.remove_dark_classes s = Some t
    /\ Components.remove_dark_classes t = Some t.
Proof.
  intros s. destruct (components_dark_free s) as [t [E [Hd Ht]]].
  exists t. split; [exact E | now apply components_on_fixed].
Qed.

(** X2.  The outputs of remove-dark-admin-pages.py and of
    remove-dark-from-components.py have no whitespace character
    immediately followed by [dark:] either. *)
Theorem other_scripts_no_space_before_dark :
  forall s,
    (exists out,
        AdminPages.remove_dark_classes s = Some out
        /\ forall pre c post,
             out = pre ++ c :: lit "dark:" ++ post -> isspace c = false)
    /\ (exists out,
           Components.remove_dark_classes s = Some out
           /\ forall pre c post,
                out = pre ++ c :: lit "dark:" ++ post -> isspace c = false).
Proof.
  intros s. split.
  - destruct (admin_pages_result s) as [o [HS E]]. exists o.
    split; [exact E|]. apply ws_dark_free_spec. eapply Sub_dark_free; eauto.
  - destruct (components_dark_free s) as [out [E [Hd _]]]. exists out.
    split; [exact E | now apply ws_dark_free_spec].
Qed.

(** X3.  The output of remove-dark-classes.py never has a space
    immediately before a space, a single quote, a double quote, a
    closing bracket or a comma; that of
    remove-dark-from-components.py never has one before a space, a
    quote or a comma. *)
Theorem output_is_tidy :
  forall s,
    (exists out,
        Classes.remove_dark_classes s = Some out
        /\ forall pre x post,
             out = pre ++ SP :: x :: post ->
             x <> SP /\ x <> SQ /\ x <> DQ /\ x <> RBRACK /\ x <> COMMA)
    /\ (exists out,
           Components.remove_dark_classes s = Some out
           /\ forall pre x post,
                out = pre ++ SP :: x :: post ->
                x <> SP /\ x <> SQ /\ x <> DQ /\ x <> COMMA).
Proof.
  intros s. split.
  - destruct (classes_dark_free s) as [out [E [_ Ht]]]. exists out.
    split; [exact E|]. intros pre x post Ho. unfold tidy in Ht.
    repeat (apply andb_true_iff in Ht as [Ht ?]).
    repeat split; intros ->;
      eapply pair_free_spec; try exact Ho; assumption.
  - destruct (components_dark_free s) as [out [E [_ Ht]]]. exists out.
    split; [exact E|]. intros pre x post Ho. unfold tidy4 in Ht.
    repeat (apply andb_true_iff in Ht as [Ht ?]).
    repeat split; intros ->;
      eapply pair_free_spec; try exact Ho; assumption.
Qed.

(** X4.  The inline substitution returns a text unchanged exactly when
    the text has no whitespace immediately before a [dark:], and its
    result is such a text: applied twice it gives what it gives once. *)
Theorem inline_pass_fixed :
  forall s,
    (sub pat_dark [] s = Some s <-> ws_dark_free s = true)
    /\ exists o, sub pat_dark [] s = Some o /\ sub pat_dark [] o = Some o.
Proof.
  intros s. split; [apply sub_dark_fixed|].
  destruct (sub_dark_ex s) as [o [E HS]]. exists o. split; [exact E|].
  apply sub_dark_fixed. eapply Sub_dark_free; exact HS.
Qed.

(** X5.  The line loop with its split and join changes a text exactly
    when one of its lines is a quoted [dark:] entry; its result has no
    such line, so a second pass over it changes nothing. *)
Theorem elide_idempotent :
  forall s,
    (elide s = s <->
     forallb (fun line => negb (is_dark_entry line)) (split LF s) = true)
    /\ forallb (fun line => negb (is_dark_entry line)) (split LF (elide s))
       = true
    /\ elide (elide s) = elide s.
Proof.
  intros s. split; [apply elide_fixed|].
  assert (H : forallb (fun line => negb (is_dark_entry line))
                      (split LF (elide s)) = true).
  { destruct (elide_lines s) as [-> | ->]; [reflexivity|].
    apply forallb_forall. intros l Hl. now apply filter_In in Hl as [_ Hl]. }
  split; [exact H | now apply elide_fixed].
Qed.

(** X6.  The five clean-up substitutions of remove-dark-classes.py
    return a text unchanged exactly when it is tidy, and run twice they
    give what they give once. *)
Theorem cleanup_idempotent :
  forall s,
    (cleanup_passes s = Some s <-> tidy s = true)
    /\ (c <- cleanup_passes s ;; cleanup_passes c) = cleanup_passes s.
Proof.
  intros s. rewrite !cleanup_passes_normalize. split.
  - split.
    + intros E. injection E as E. rewrite <- E. apply normalize_tidy.
    + intros H. now rewrite tidy_normalize.
  - now rewrite (tidy_normalize _ (normalize_tidy s)).
Qed.

(** X7.  When a script leaves a text as it is, which is when its driver
    does not write the file: remove-dark-classes.py exactly when no
    line is a quoted [dark:] entry, no whitespace stands before a
    [dark:] and the text is tidy; remove-dark-admin-pages.py exactly
    when the first two hold; remove-dark-from-components.py exactly
    when no whitespace stands before a [dark:] and the text has no
    space before a space, a quote or a comma. *)
Theorem unchanged_exactly_when :
  forall s,
    (Classes.remove_dark_classes s = Some s <->
     forallb (fun line => negb (is_dark_entry line)) (split LF s) = true
     /\ ws_dark_free s = true /\ tidy s = true)
    /\ (AdminPages.remove_dark_classes s = Some s <->
        forallb (fun line => negb (is_dark_entry line)) (split LF s) = true
        /\ ws_dark_free s = true)
    /\ (Components.remove_dark_classes s = Some s <->
        ws_dark_free s = true /\ tidy4 s = true).
Proof.
  intros s. split; [|split]; split.
  - intros E. destruct (classes_result s) as [o [HS E']].
    rewrite E' in E. injection E as E.
    pose proof (normalize_subseq o) as S1. rewrite E in S1.
    pose proof (Sub_subseq _ _ _ HS) as S2.
    pose proof (elide_subseq s) as S3.
    pose proof (subseq_length _ _ S2). pose proof (subseq_length _ _ S3).
    assert (Eo : s = o) by (apply subseq_same_length; [exact S1 | lia]).
    subst o.
    assert (Ee : s = elide s) by (apply subseq_same_length; [exact S2 | lia]).
    rewrite <- Ee in HS. repeat split.
    + apply elide_fixed. now symmetry.
    + eapply Sub_dark_free; exact HS.
    + rewrite <- E. apply normalize_tidy.
  - intros [Hl [Hd Ht]]. rewrite (classes_on_result s Hd Ht).
    f_equal. now apply elide_fixed.
  - intros E. destruct (admin_pages_result s) as [o [HS E']].
    rewrite E' in E. injection E as ->.
    pose proof (Sub_subseq _ _ _ HS) as S2.
    pose proof (elide_subseq s) as S3.
    pose proof (subseq_length _ _ S3).
    assert (Ee : s = elide s) by (apply subseq_same_length; [exact S2 | lia]).
    rewrite <- Ee in HS. split.
    + apply elide_fixed. now symmetry.
    + eapply Sub_dark_free; exact HS.
  - intros [Hl Hd]. rewrite admin_pages_passes.
    rewrite (proj2 (elide_fixed s) Hl). now apply sub_dark_fixed.
  - intros E. destruct (components_result s) as [o [HS E']].
    rewrite E' in E. injection E as E.
    pose proof (normalize4_subseq o) as S1. rewrite E in S1.
    pose proof (Sub_subseq _ _ _ HS) as S2.
    pose proof (subseq_length _ _ S2).
    assert (Eo : s = o) by (apply subseq_same_length; [exact S1 | lia]).
    subst o. split.
    + eapply Sub_dark_free; exact HS.
    + rewrite <- E. apply normalize4_tidy4.
  - intros [Hd Ht]. now apply components_on_fixed.
Qed.

(** ** The drivers *)

















(** X15.  A second run of remove_dark_classes of
    remove-dark-admin-pages.py on its own output [t] only drops the
    lines of [t] that the line loop drops; where [t] has no such line
    the second run returns [t]. *)
Theorem admin_pages_second_run :
  forall s,
  exists t,
    AdminPages.remove_dark_classes s = Some t
    /\ AdminPages.remove_dark_classes t
       = Some (join [LF] (filter (fun line => negb (is_dark_entry line))
                            (split LF t)))
    /\ (forallb (fun line => negb (is_dark_entry line)) (split LF t) = true ->
        AdminPages.remove_dark_classes t = Some t).
Proof.
  intros s. destruct (admin_pages_result s) as [t [HS E]].
  exists t. split; [exact E|].
  assert (Hd : ws_dark_free t = true) by (eapply Sub_dark_free; exact HS).
  assert (E2 : AdminPages.remove_dark_classes t = Some (elide t)).
  { rewrite admin_pages_passes. apply sub_dark_fixed.
    now apply elide_dark_free. }
  rewrite E2, <- elide_filter. split; [reflexivity|].
  intros Hall. f_equal. now apply elide_fixed.
Qed.
